(** * PyClone likelihood engine ([lib/pyclone/model.py])

    A shallow embedding of the per-data-point likelihood model: mixture
    weights, the binomial and beta-binomial likelihoods, the bounded memo
    cache and the discretised posterior.

    Python floats are idealised as real numbers: arithmetic is exact, and
    the only failures kept are the exceptions the code can raise
    ([ValueError] from [math.lgamma] and [math.log], [ZeroDivisionError],
    [TypeError] from [raise NotImplemented], [KeyError], [IndexError]). *)

From Stdlib Require Import Reals List ZArith Bool Lia Lra ClassicalEpsilon.
Import ListNotations.
Open Scope R_scope.

(** ** Exceptions and fallible computations *)

Inductive exn : Type :=
| ValueError
| ZeroDivisionError
| TypeError
| KeyError
| IndexError.

Inductive result (A : Type) : Type :=
| Ok (x : A)
| Raise (e : exn).

Arguments Ok {A} x.
Arguments Raise {A} e.

Definition bind {A B : Type} (m : result A) (k : A -> result B) : result B :=
  match m with
  | Ok x => k x
  | Raise e => Raise e
  end.

Notation "x <- m ;; k" := (bind m (fun x => k))
  (at level 61, m at next level, right associativity).
Notation "' p <- m ;; k" := (bind m (fun x => match x with p => k end))
  (at level 61, p pattern, m at next level, right associativity).

(** A [for] loop over [l] that threads the loop state [s] and stops at the
    first exception. *)
Fixpoint for_each {A S : Type} (l : list A) (body : S -> A -> result S) (s : S)
  : result S :=
  match l with
  | [] => Ok s
  | x :: t => s' <- body s x ;; for_each t body s'
  end.

(** A list comprehension whose element expression can raise. *)
Fixpoint comprehension {A B : Type} (f : A -> result B) (l : list A)
  : result (list B) :=
  match l with
  | [] => Ok []
  | x :: t => y <- f x ;; ys <- comprehension f t ;; Ok (y :: ys)
  end.

(** ** The logarithm of the Gamma function

    [math.lgamma] is the natural logarithm of the absolute value of the
    Gamma function.  On the positive reals it is the limit of Euler's
    sequence [ln (n! n^x / (x (x+1) ... (x+n)))], written here with the
    logarithm distributed over the product. *)

Fixpoint euler_sum (x : R) (n : nat) : R :=
  match n with
  | O => 0
  | S m => euler_sum x m + (ln (INR n) - ln (x + INR n))
  end.

Definition euler_seq (x : R) (n : nat) : R :=
  x * ln (INR (S n)) - ln x + euler_sum x (S n).

Definition ln_Gamma (x : R) : R :=
  epsilon (inhabits 0) (fun l => Un_cv (euler_seq x) l).

(** Below zero the reflection [Gamma (x + 1) = x * Gamma x] is unrolled
    until the argument is positive. *)
Fixpoint ln_abs_shift (x : R) (m : nat) : R :=
  match m with
  | O => 0
  | S k => ln_abs_shift x k + ln (Rabs (x + INR k))
  end.

Definition ln_abs_Gamma (x : R) : R :=
  if Rlt_dec 0 x then ln_Gamma x
  else
    let m := Z.to_nat (1 - Int_part x) in
    ln_Gamma (x + INR m) - ln_abs_shift x m.

(** The poles of Gamma: zero and the negative integers. *)
Definition is_pole (x : R) : bool :=
  if Rle_dec x 0 then
    if Req_dec_T (IZR (Int_part x)) x then true else false
  else false.

(** ** Python built-ins used by the module *)

Module Py.

(** [sum(l)]: left-to-right accumulation from [0]. *)
Definition sum (l : list R) : R := fold_left Rplus l 0.

(** [range(n)] for a Python [int]. *)
Definition range (n : Z) : list Z := map Z.of_nat (seq 0 (Z.to_nat n)).

Definition enumerate {A : Type} (l : list A) : list (nat * A) :=
  combine (seq 0 (length l)) l.

(** [zip] of two lists is [combine]; [zip] of three: *)
Fixpoint zip3 {A B C : Type} (la : list A) (lb : list B) (lc : list C)
  : list (A * B * C) :=
  match la, lb, lc with
  | x :: ta, y :: tb, z :: tc => (x, y, z) :: zip3 ta tb tc
  | _, _, _ => []
  end.

(** [l[:-1]] and [l[1:]]. *)
Definition but_last {A : Type} (l : list A) : list A := removelast l.
Definition from_1 {A : Type} (l : list A) : list A := tl l.

(** [l[i]], with Python's negative indices. *)
Definition getitem {A : Type} (l : list A) (i : Z) : result A :=
  let j := if (i <? 0)%Z then (Z.of_nat (length l) + i)%Z else i in
  if (j <? 0)%Z then Raise IndexError
  else match nth_error l (Z.to_nat j) with
       | Some x => Ok x
       | None => Raise IndexError
       end.

(** True division ([from __future__ import division]). *)
Definition truediv (x y : R) : result R :=
  if Req_dec_T y 0 then Raise ZeroDivisionError else Ok (x / y).

(** [math.log]: a domain error at and below zero. *)
Definition log (x : R) : result R :=
  if Rlt_dec 0 x then Ok (ln x) else Raise ValueError.

(** [math.lgamma]: a domain error at the poles. *)
Definition lgamma (x : R) : result R :=
  if is_pole x then Raise ValueError else Ok (ln_abs_Gamma x).

End Py.

(** ** [collections.OrderedDict] keyed by [phi]

    Entries are kept oldest first. *)

Module OrderedDict.

Definition t : Type := list (R * R).

Definition empty : t := [].

Definition key_eqb (k k' : R) : bool :=
  if Req_dec_T k k' then true else false.

Fixpoint get (c : t) (k : R) : option R :=
  match c with
  | [] => None
  | (k', v) :: rest => if key_eqb k k' then Some v else get rest k
  end.

(** [k in c] *)
Definition contains (c : t) (k : R) : bool :=
  match get c k with Some _ => true | None => false end.

(** [c[k]] *)
Definition getitem (c : t) (k : R) : result R :=
  match get c k with Some v => Ok v | None => Raise KeyError end.

(** [c[k] = v]: an existing key keeps its position, a new one goes last. *)
Fixpoint setitem (c : t) (k v : R) : t :=
  match c with
  | [] => [(k, v)]
  | (k', v') :: rest =>
      if key_eqb k k' then (k', v) :: rest else (k', v') :: setitem rest k v
  end.

(** [len(c)] *)
Definition len (c : t) : Z := Z.of_nat (length c).

(** [c.popitem(last=False)] *)
Definition popitem_first (c : t) : result ((R * R) * t) :=
  match c with
  | [] => Raise KeyError
  | e :: rest => Ok (e, rest)
  end.

Definition keys (c : t) : list R := map fst c.

End OrderedDict.

(** ** [pyclone.utils]

    The module imports four helpers.  Three of them are only ever called,
    never inspected, and are kept abstract. *)

Class Utils : Type := {
  log_binomial_coefficient : Z -> Z -> R;
  log_binomial_likelihood : Z -> Z -> R -> R;
  log_beta_pdf : R -> R -> R -> R
}.

(** Modelled from the spec: [log_sum_exp] of [pyclone.utils], whose source is
    not part of [model.py]; the glossary gives it as the numerically stable
    evaluation of [log (sum_i (exp x_i))]. *)
Definition log_sum_exp (log_X : list R) : R := ln (Py.sum (map exp log_X)).

Definition log_gamma : R -> result R := Py.lgamma.

(** ** [class DataPoint] *)

Module DataPoint.

Record t : Type := __init__ {
  a : Z;
  d : Z;
  mu_r : list R;
  mu_v : list R;
  delta_r : list R;
  delta_v : list R
}.

End DataPoint.

(** ** [class Likelihood] *)

Module Likelihood.

Record t : Type := mk {
  a : Z;
  d : Z;
  log_pi_r : list R;
  log_pi_v : list R;
  _log_binomial_norm_const : R;
  _ll_cache : OrderedDict.t
}.

Definition with_cache (self : t) (c : OrderedDict.t) : t :=
  mk (a self) (d self) (log_pi_r self) (log_pi_v self)
     (_log_binomial_norm_const self) c.

Definition _get_log_mix_weights (delta : list R) : result (list R) :=
  log_denominator <- log_gamma (Py.sum delta + 1) ;;
  for_each (Py.enumerate delta)
    (fun log_mix_weights '(i, d_i) =>
       log_numerator <- log_gamma (d_i + 1) ;;
       log_numerator <-
         for_each (Py.enumerate delta)
           (fun log_numerator '(j, d_j) =>
              if negb (Nat.eqb i j) then
                g <- log_gamma d_j ;; Ok (log_numerator + g)
              else Ok log_numerator)
           log_numerator ;;
       Ok (log_mix_weights ++ [log_numerator - log_denominator]))
    [].

Section WithUtils.
Context `{Utils}.

Definition __init__ (data_point : DataPoint.t) : result t :=
  log_pi_r <- _get_log_mix_weights (DataPoint.delta_r data_point) ;;
  log_pi_v <- _get_log_mix_weights (DataPoint.delta_v data_point) ;;
  Ok (mk (DataPoint.a data_point) (DataPoint.d data_point)
         log_pi_r log_pi_v
         (log_binomial_coefficient (DataPoint.d data_point)
                                   (DataPoint.a data_point))
         OrderedDict.empty).

Definition _log_binomial_likelihood (self : t) (phi mu_r mu_v : R) : R :=
  let mu := (1 - phi) * mu_r + phi * mu_v in
  _log_binomial_norm_const self
  + log_binomial_likelihood (a self) (d self) mu.

End WithUtils.

(** [raise NotImplemented]: [NotImplemented] is not an exception, so the
    [raise] statement itself fails with a [TypeError]. *)
Definition _log_likelihood (self : t) (phi : R) : result R :=
  Raise TypeError.

(** [compute_log_likelihood], with [self._log_likelihood] resolved by the
    caller.  The third component counts the calls made to it. *)
Definition compute_log_likelihood
    (_log_likelihood : R -> result R) (self : t) (phi : R)
  : result R * t * nat :=
  if negb (OrderedDict.contains (_ll_cache self) phi) then
    match _log_likelihood phi with
    | Raise e => (Raise e, self, 1%nat)
    | Ok v =>
        let c1 := OrderedDict.setitem (_ll_cache self) phi v in
        if (OrderedDict.len c1 >? 1000)%Z then
          match OrderedDict.popitem_first c1 with
          | Raise e => (Raise e, with_cache self c1, 1%nat)
          | Ok (_, c2) =>
              (OrderedDict.getitem c2 phi, with_cache self c2, 1%nat)
          end
        else (OrderedDict.getitem c1 phi, with_cache self c1, 1%nat)
    end
  else (OrderedDict.getitem (_ll_cache self) phi, self, 0%nat).

End Likelihood.

(** ** [class BinomialLikelihood(Likelihood)] *)

Module BinomialLikelihood.

Record t : Type := mk {
  base : Likelihood.t;
  mu_r : list R;
  mu_v : list R
}.

Section WithUtils.
Context `{Utils}.

Definition __init__ (data_point : DataPoint.t) : result t :=
  base <- Likelihood.__init__ data_point ;;
  Ok (mk base (DataPoint.mu_r data_point) (DataPoint.mu_v data_point)).

Definition _log_likelihood (self : t) (phi : R) : R :=
  let ll :=
    fold_left
      (fun ll '(mu_r, log_pi_r) =>
         fold_left
           (fun ll '(mu_v, log_pi_v) =>
              let temp :=
                log_pi_r + log_pi_v
                + Likelihood._log_binomial_likelihood (base self)
                    phi mu_r mu_v in
              ll ++ [temp])
           (combine (mu_v self) (Likelihood.log_pi_v (base self)))
           ll)
      (combine (mu_r self) (Likelihood.log_pi_r (base self)))
      [] in
  log_sum_exp ll.

End WithUtils.

End BinomialLikelihood.

(** ** [class BetaBinomialLikelihood(Likelihood)] *)

Module BetaBinomialLikelihood.

Record t : Type := mk {
  base : Likelihood.t;
  mu_r : list R;
  alpha_v : list R;
  beta_v : list R;
  _mesh : list R;
  _log_xi : R
}.

(** Returns the pair [(self.alpha_v, self.beta_v)]. *)
Definition _set_beta_params (mu_v : list R) (s : R) : list R * list R :=
  fold_left
    (fun '(alpha_v, beta_v) m =>
       let alpha := s * m in
       let beta := s - alpha in
       (alpha_v ++ [alpha], beta_v ++ [beta]))
    mu_v ([], []).

(** Returns the pair [(self._mesh, self._log_xi)]. *)
Definition _set_mesh (mesh_size : Z) : result (list R * R) :=
  knots <-
    comprehension (fun i => Py.truediv (IZR i) (IZR mesh_size))
      (Py.range (mesh_size + 1)) ;;
  _mesh <-
    comprehension
      (fun i =>
         k0 <- Py.getitem knots i ;;
         k1 <- Py.getitem knots (i + 1) ;;
         Ok ((k0 + k1) / 2))
      (Py.range mesh_size) ;;
  l <- Py.log (IZR mesh_size) ;;
  Ok (_mesh, - l).

Section WithUtils.
Context `{Utils}.

Definition __init__ (data_point : DataPoint.t)
    (mesh_size : Z) (beta_precision : R) : result t :=
  base <- Likelihood.__init__ data_point ;;
  let '(alpha_v, beta_v) :=
    _set_beta_params (DataPoint.mu_v data_point) beta_precision in
  '(_mesh, _log_xi) <- _set_mesh mesh_size ;;
  Ok (mk base (DataPoint.mu_r data_point) alpha_v beta_v _mesh _log_xi).

Definition _log_beta_binomial_likelihood
    (self : t) (phi mu_r alpha_v beta_v : R) : R :=
  let log_sum :=
    fold_left
      (fun log_sum mu_v =>
         let y_i :=
           Likelihood._log_binomial_likelihood (base self) phi mu_r mu_v
           + log_beta_pdf mu_v alpha_v beta_v in
         log_sum ++ [y_i + _log_xi self])
      (_mesh self) [] in
  log_sum_exp log_sum.

Definition _log_likelihood (self : t) (phi : R) : R :=
  let ll :=
    fold_left
      (fun ll '(mu_r, log_pi_r) =>
         fold_left
           (fun ll '(alpha_v, beta_v, log_pi_v) =>
              let temp :=
                log_pi_r + log_pi_v
                + _log_beta_binomial_likelihood self
                    phi mu_r alpha_v beta_v in
              ll ++ [temp])
           (Py.zip3 (alpha_v self) (beta_v self)
                    (Likelihood.log_pi_v (base self)))
           ll)
      (combine (mu_r self) (Likelihood.log_pi_r (base self)))
      [] in
  log_sum_exp ll.

End WithUtils.

End BetaBinomialLikelihood.

(** ** Instances and method resolution *)

Inductive instance : Type :=
| OfLikelihood (self : Likelihood.t)
| OfBinomial (self : BinomialLikelihood.t)
| OfBetaBinomial (self : BetaBinomialLikelihood.t).

Definition base_of (self : instance) : Likelihood.t :=
  match self with
  | OfLikelihood l => l
  | OfBinomial b => BinomialLikelihood.base b
  | OfBetaBinomial b => BetaBinomialLikelihood.base b
  end.

Definition with_base (self : instance) (l : Likelihood.t) : instance :=
  match self with
  | OfLikelihood _ => OfLikelihood l
  | OfBinomial b =>
      OfBinomial (BinomialLikelihood.mk l (BinomialLikelihood.mu_r b)
                                        (BinomialLikelihood.mu_v b))
  | OfBetaBinomial b =>
      OfBetaBinomial
        (BetaBinomialLikelihood.mk l
           (BetaBinomialLikelihood.mu_r b)
           (BetaBinomialLikelihood.alpha_v b)
           (BetaBinomialLikelihood.beta_v b)
           (BetaBinomialLikelihood._mesh b)
           (BetaBinomialLikelihood._log_xi b))
  end.

Definition cache_of (self : instance) : OrderedDict.t :=
  Likelihood._ll_cache (base_of self).

Section Engine.
Context `{Utils}.

(** [self._log_likelihood(phi)], by the class of [self]. *)
Definition _log_likelihood (self : instance) (phi : R) : result R :=
  match self with
  | OfLikelihood l => Likelihood._log_likelihood l phi
  | OfBinomial b => Ok (BinomialLikelihood._log_likelihood b phi)
  | OfBetaBinomial b => Ok (BetaBinomialLikelihood._log_likelihood b phi)
  end.

(** [self.compute_log_likelihood(phi)]: the value or exception, the
    instance afterwards, and the number of kernel evaluations. *)
Definition compute_log_likelihood (self : instance) (phi : R)
  : result R * instance * nat :=
  let '(r, l, n) :=
    Likelihood.compute_log_likelihood (_log_likelihood self)
      (base_of self) phi in
  (r, with_base self l, n).

(** A sequence of calls on one instance; the results are dropped. *)
Definition after_calls (self : instance) (phis : list R) : instance :=
  fold_left (fun s phi => snd (fst (compute_log_likelihood s phi))) phis self.

Definition get_independent_posterior
    (data_point : DataPoint.t) (num_bins : Z) : result (list (R * R)) :=
  likelihood <- BinomialLikelihood.__init__ data_point ;;
  bin_width <- Py.truediv 1 (IZR num_bins) ;;
  let num_endpoints := (num_bins + 1)%Z in
  let endpoints := map (fun x => IZR x * bin_width) (Py.range num_endpoints) in
  let bin_centres :=
    fold_left
      (fun bin_centres '(left_, right_) =>
         bin_centres ++ [(left_ + right_) / 2])
      (combine (Py.but_last endpoints) (Py.from_1 endpoints)) [] in
  '(_, ll) <-
    for_each bin_centres
      (fun '(likelihood, ll) phi =>
         let '(r, likelihood, _) := compute_log_likelihood likelihood phi in
         v <- r ;; Ok (likelihood, ll ++ [v]))
      (OfBinomial likelihood, []) ;;
  shifted <- comprehension (fun x => l <- Py.log bin_width ;; Ok (x + l)) ll ;;
  let norm_const := log_sum_exp shifted in
  let pdf := map (fun x => exp (x - norm_const)) ll in
  Ok (combine bin_centres pdf).

End Engine.

(** ** The mixture weights as the specification writes them

    [weight_i = log_gamma (delta_i + 1) + sum_(j <> i) log_gamma delta_j
                - log_gamma (sum_j delta_j + 1)], over explicit indices. *)

Definition big_sum (idx : list nat) (f : nat -> R) : R :=
  fold_right (fun j s => f j + s) 0 idx.

Definition indices {A : Type} (l : list A) : list nat := seq 0 (length l).

Definition weight_formula (delta : list R) (i : nat) : R :=
  ln_Gamma (nth i delta 0 + 1)
  + big_sum (filter (fun j => negb (Nat.eqb j i)) (indices delta))
            (fun j => ln_Gamma (nth j delta 0))
  - ln_Gamma (big_sum (indices delta) (fun j => nth j delta 0) + 1).

(** Pseudo-counts for which the derivation is defined: non-negative, and
    strictly positive as soon as there is more than one of them. *)
Definition usable (delta : list R) : Prop :=
  Forall (fun x => 0 <= x) delta
  /\ ((length delta <= 1)%nat \/ Forall (fun x => 0 < x) delta).

(** ** Reading the outcome of a memoised call *)

Definition value_of (o : result R * instance * nat) : result R := fst (fst o).
Definition state_of (o : result R * instance * nat) : instance := snd (fst o).
Definition evaluations_of (o : result R * instance * nat) : nat := snd o.

(** The instance [self] with its cache replaced by [c]. *)
Definition set_cache (self : instance) (c : OrderedDict.t) : instance :=
  with_base self (Likelihood.with_cache (base_of self) c).

(** Every cached value is what the kernel [f] computes at its key. *)
Definition consistent (f : R -> result R) (c : OrderedDict.t) : Prop :=
  forall k v, In (k, v) c -> f k = Ok v.

(** The cache after a miss on [phi] whose kernel value is [v]: the new entry
    goes last, and the oldest one leaves when the cache was already full. *)
Definition next_cache (c : OrderedDict.t) (phi v : R) : OrderedDict.t :=
  if (1000 <=? length c)%nat then tl (c ++ [(phi, v)]) else c ++ [(phi, v)].

(** ** The likelihoods as the specification writes them *)

(** The data-model invariant of a [DataPoint]: one pseudo-count per
    candidate allele frequency. *)
Definition well_formed (data_point : DataPoint.t) : Prop :=
  length (DataPoint.mu_r data_point) = length (DataPoint.delta_r data_point)
  /\ length (DataPoint.mu_v data_point) = length (DataPoint.delta_v data_point).

(** The number of components a loop over [zip(mu, log_pi)] visits. *)
Definition components (mu log_pi : list R) : nat :=
  Nat.min (length mu) (length log_pi).

(** All pairs [(i, j)] with [i < n_r] and [j < n_v], in the order of the
    nested loops, mapped through [term]. *)
Definition cross_product (n_r n_v : nat) (term : nat -> nat -> R) : list R :=
  flat_map (fun i => map (term i) (seq 0 n_v)) (seq 0 n_r).

(** The midpoints [(2 i + 1) / (2 M)] of [M] equal bins over [[0, 1]]. *)
Definition midpoints (M : nat) : list R :=
  map (fun i => (2 * INR i + 1) / (2 * INR M)) (seq 0 M).

(** The bin centres [(i + 1/2) / N]. *)
Definition bin_centers (N : nat) : list R :=
  map (fun i => (INR i + 1 / 2) / INR N) (seq 0 N).

Definition strictly_increasing (l : list R) : Prop :=
  forall i j, (i < j)%nat -> (j < length l)%nat -> nth i l 0 < nth j l 0.

(** The helpers of [U] with another Beta density. *)
Definition with_log_beta_pdf (U : Utils) (pdf : R -> R -> R -> R) : Utils := {|
  log_binomial_coefficient := @log_binomial_coefficient U;
  log_binomial_likelihood := @log_binomial_likelihood U;
  log_beta_pdf := pdf
|}.

(** What the derivation is said to return for [delta]: as many log-weights
    as pseudo-counts, each given by [weight_formula]. *)
Definition returns_weights (delta : list R) : Prop :=
  exists ws,
    Likelihood._get_log_mix_weights delta = Ok ws
    /\ length ws = length delta
    /\ forall i, (i < length delta)%nat -> nth i ws 0 = weight_formula delta i.

(** The logarithm of the multivariate Beta function,
    [ln (prod_j Gamma delta_j / Gamma (sum_j delta_j))]. *)
Definition ln_multi_Beta (delta : list R) : R :=
  Py.sum (map ln_Gamma delta) - ln_Gamma (Py.sum delta).

(** A sample implementation of the abstract helpers, with their textbook
    definitions, on which the theorems can be run. *)
Definition textbook_utils : Utils := {|
  log_binomial_coefficient n k :=
    ln_Gamma (IZR n + 1) - ln_Gamma (IZR k + 1) - ln_Gamma (IZR (n - k) + 1);
  log_binomial_likelihood x n mu :=
    IZR x * ln mu + IZR (n - x) * ln (1 - mu);
  log_beta_pdf x alpha beta :=
    (alpha - 1) * ln x + (beta - 1) * ln (1 - x)
    - (ln_Gamma alpha + ln_Gamma beta - ln_Gamma (alpha + beta))
|}.

(** A sample data point and the instances built from it. *)
Definition sample_point : DataPoint.t :=
  DataPoint.__init__ 5 10 [1 / 4; 1 / 2] [1 / 2] [2; 2] [3].

Definition sample_base : Likelihood.t :=
  Likelihood.mk 5 10
    (map (weight_formula [2; 2]) [0; 1]%nat)
    (map (weight_formula [3]) [0%nat])
    (log_binomial_coefficient (Utils := textbook_utils) 10 5)
    OrderedDict.empty.

Definition sample_binomial : BinomialLikelihood.t :=
  BinomialLikelihood.mk sample_base [1 / 4; 1 / 2] [1 / 2].

Definition sample_beta_binomial : BetaBinomialLikelihood.t :=
  BetaBinomialLikelihood.mk sample_base [1 / 4; 1 / 2]
    [100 * (1 / 2)] [100 - 100 * (1 / 2)] (midpoints 4) (- ln 4).

(** A well-formed data point with a zero pseudo-count next to a positive one. *)
Definition zero_count_point : DataPoint.t :=
  DataPoint.__init__ 5 10 [1 / 4; 1 / 2] [1 / 2] [0; 1] [3].

(** A data point whose candidate frequencies are all equal. *)
Definition equal_frequency_point : DataPoint.t :=
  DataPoint.__init__ 5 10 [1 / 2; 1 / 2] [1 / 2] [2; 2] [3].

(** The helpers of [U] with another binomial coefficient. *)
Definition with_log_binomial_coefficient (U : Utils) (coefficient : Z -> Z -> R)
  : Utils := {|
  log_binomial_coefficient := coefficient;
  log_binomial_likelihood := @log_binomial_likelihood U;
  log_beta_pdf := @log_beta_pdf U
|}.

(** The instance [self] with another normalising constant. *)
Definition with_norm_const (self : BinomialLikelihood.t) (c : R)
  : BinomialLikelihood.t :=
  BinomialLikelihood.mk
    (Likelihood.mk
       (Likelihood.a (BinomialLikelihood.base self))
       (Likelihood.d (BinomialLikelihood.base self))
       (Likelihood.log_pi_r (BinomialLikelihood.base self))
       (Likelihood.log_pi_v (BinomialLikelihood.base self))
       c
       (Likelihood._ll_cache (BinomialLikelihood.base self)))
    (BinomialLikelihood.mu_r self) (BinomialLikelihood.mu_v self).

(** * Properties *)

(** ** The Gamma function: convergence of Euler's sequence *)

Lemma ln_le_sub1 t : 0 < t -> ln t <= t - 1.
Proof.
  intros Ht. pose proof (exp_ineq1_le (t - 1)) as H.
  replace (1 + (t - 1)) with t in H by ring.
  rewrite <- (ln_exp (t - 1)).
  destruct H as [H | H].
  - left. apply ln_increasing; assumption.
  - right. rewrite <- H. reflexivity.
Qed.

Lemma ln_ge_sub1 t : 0 < t -> 1 - / t <= ln t.
Proof.
  intros Ht. pose proof (ln_le_sub1 (/ t) (Rinv_0_lt_compat _ Ht)) as H.
  rewrite ln_Rinv in H by assumption. lra.
Qed.

Lemma ln_quot a b : 0 < a -> 0 < b -> ln (a / b) = ln a - ln b.
Proof.
  intros Ha Hb. unfold Rdiv.
  rewrite ln_mult by (try apply Rinv_0_lt_compat; assumption).
  rewrite ln_Rinv by assumption. ring.
Qed.

Lemma euler_step x n :
  0 < x ->
  euler_seq x (S n) - euler_seq x n =
  x * ln (INR (S (S n)) / INR (S n)) - ln ((x + INR (S (S n))) / INR (S (S n))).
Proof.
  intros Hx. unfold euler_seq.
  assert (H1 : 0 < INR (S n)) by (apply lt_0_INR; lia).
  assert (H2 : 0 < INR (S (S n))) by (apply lt_0_INR; lia).
  rewrite !ln_quot by lra.
  change (euler_sum x (S (S n))) with
    (euler_sum x (S n) + (ln (INR (S (S n))) - ln (x + INR (S (S n))))).
  ring.
Qed.

Lemma euler_growing x : 0 < x -> Un_growing (euler_seq x).
Proof.
  intros Hx n.
  assert (H1 : 0 < INR (S n)) by (apply lt_0_INR; lia).
  assert (H2 : INR (S (S n)) = INR (S n) + 1) by (rewrite (S_INR (S n)); ring).
  pose proof (euler_step x n Hx) as E.
  set (N := INR (S n)) in *. rewrite H2 in E.
  assert (A : 1 - / ((N + 1) / N) <= ln ((N + 1) / N)).
  { apply ln_ge_sub1. apply Rdiv_lt_0_compat; lra. }
  assert (B : ln ((x + (N + 1)) / (N + 1)) <= (x + (N + 1)) / (N + 1) - 1).
  { apply ln_le_sub1. apply Rdiv_lt_0_compat; lra. }
  assert (A' : 1 - / ((N + 1) / N) = / (N + 1)) by (field; lra).
  assert (B' : (x + (N + 1)) / (N + 1) - 1 = x * / (N + 1)) by (field; lra).
  rewrite A' in A. rewrite B' in B.
  assert (x * / (N + 1) <= x * ln ((N + 1) / N)).
  { apply Rmult_le_compat_l; lra. }
  lra.
Qed.

Lemma euler_step_ub x n :
  0 < x ->
  euler_seq x (S n) + x * (1 + x) / INR (S (S n)) <=
  euler_seq x n + x * (1 + x) / INR (S n).
Proof.
  intros Hx.
  assert (H1 : 0 < INR (S n)) by (apply lt_0_INR; lia).
  assert (H2 : INR (S (S n)) = INR (S n) + 1) by (rewrite (S_INR (S n)); ring).
  pose proof (euler_step x n Hx) as E.
  set (N := INR (S n)) in *. rewrite H2 in *.
  assert (A : ln ((N + 1) / N) <= (N + 1) / N - 1).
  { apply ln_le_sub1. apply Rdiv_lt_0_compat; lra. }
  assert (B : 1 - / ((x + (N + 1)) / (N + 1)) <= ln ((x + (N + 1)) / (N + 1))).
  { apply ln_ge_sub1. apply Rdiv_lt_0_compat; lra. }
  assert (A' : (N + 1) / N - 1 = / N) by (field; lra).
  assert (B' : 1 - / ((x + (N + 1)) / (N + 1)) = x / (x + N + 1)) by (field; lra).
  rewrite A' in A. rewrite B' in B.
  assert (A2 : x * ln ((N + 1) / N) <= x * / N).
  { apply Rmult_le_compat_l; lra. }
  assert (C : x * / N - x / (x + N + 1) + x * (1 + x) / (N + 1) <= x * (1 + x) / N).
  { assert (D : x * (1 + x) / N - (x * / N - x / (x + N + 1) + x * (1 + x) / (N + 1))
               = x * x * (1 + x) / (N * (N + 1) * (x + N + 1))) by (field; lra).
    assert (0 <= x * x * (1 + x) / (N * (N + 1) * (x + N + 1))).
    { apply Rlt_le. apply Rdiv_lt_0_compat.
      - repeat apply Rmult_lt_0_compat; lra.
      - repeat apply Rmult_lt_0_compat; lra. }
    lra. }
  lra.
Qed.

Lemma euler_bounded x : 0 < x -> has_ub (euler_seq x).
Proof.
  intros Hx. exists (euler_seq x 0 + x * (1 + x) / INR 1).
  intros y [n ->].
  assert (H : euler_seq x n + x * (1 + x) / INR (S n)
              <= euler_seq x 0 + x * (1 + x) / INR 1).
  { induction n as [| n IH]; [lra |].
    pose proof (euler_step_ub x n Hx). lra. }
  assert (0 < x * (1 + x) / INR (S n)).
  { apply Rdiv_lt_0_compat; [apply Rmult_lt_0_compat; lra | apply lt_0_INR; lia]. }
  lra.
Qed.

Lemma ln_Gamma_cv x : 0 < x -> Un_cv (euler_seq x) (ln_Gamma x).
Proof.
  intros Hx. unfold ln_Gamma. apply epsilon_spec.
  destruct (growing_cv _ (euler_growing x Hx) (euler_bounded x Hx)) as [l Hl].
  exists l. exact Hl.
Qed.

Lemma squeeze_inv (u : nat -> R) (c : R) :
  0 <= c ->
  (forall n, 0 <= u n <= c / INR (S n)) -> Un_cv u 0.
Proof.
  intros Hc Hu eps Heps.
  destruct (archimed (c / eps)) as [Hup _].
  assert (Hz : (0 <= up (c / eps))%Z).
  { apply le_IZR. assert (0 <= c / eps) by (apply Rle_mult_inv_pos; assumption). lra. }
  exists (Z.to_nat (up (c / eps))). intros n Hn.
  unfold Rdist. rewrite Rminus_0_r.
  destruct (Hu n) as [H0 H1]. rewrite Rabs_pos_eq by assumption.
  apply Rle_lt_trans with (1 := H1).
  assert (Hn' : IZR (up (c / eps)) <= INR n).
  { rewrite INR_IZR_INZ. apply IZR_le. lia. }
  assert (HS : 0 < INR (S n)) by (apply lt_0_INR; lia).
  rewrite S_INR in *.
  apply Rmult_lt_reg_r with (INR n + 1); [assumption |].
  unfold Rdiv. rewrite Rmult_assoc, Rinv_l by lra. rewrite Rmult_1_r.
  assert (c / eps < INR n + 1) by lra.
  apply Rmult_lt_compat_r with (r := eps) in H; [| assumption].
  unfold Rdiv in H. rewrite Rmult_assoc, Rinv_l in H by lra. lra.
Qed.

Lemma euler_sum_shift x n :
  euler_sum (x + 1) n - euler_sum x n = ln (x + 1) - ln (x + 1 + INR n).
Proof.
  induction n as [| n IH].
  - simpl. rewrite Rplus_0_r. ring.
  - change (euler_sum (x + 1) (S n)) with
      (euler_sum (x + 1) n + (ln (INR (S n)) - ln (x + 1 + INR (S n)))).
    change (euler_sum x (S n)) with
      (euler_sum x n + (ln (INR (S n)) - ln (x + INR (S n)))).
    replace (x + INR (S n)) with (x + 1 + INR n) by (rewrite S_INR; ring).
    lra.
Qed.

Lemma euler_seq_shift x n :
  0 < x ->
  euler_seq (x + 1) n - euler_seq x n =
  ln x - ln ((x + 1 + INR (S n)) / INR (S n)).
Proof.
  intros Hx. unfold euler_seq.
  pose proof (euler_sum_shift x (S n)) as E.
  assert (H1 : 0 < INR (S n)) by (apply lt_0_INR; lia).
  rewrite ln_quot by lra. lra.
Qed.

Lemma ln_ratio_cv c :
  0 <= c -> Un_cv (fun n => ln ((c + INR (S n)) / INR (S n))) 0.
Proof.
  intros Hc. apply squeeze_inv with (c := c); [assumption |].
  intros n.
  assert (H1 : 0 < INR (S n)) by (apply lt_0_INR; lia).
  assert (Hq : 0 < (c + INR (S n)) / INR (S n)) by (apply Rdiv_lt_0_compat; lra).
  pose proof (ln_le_sub1 _ Hq) as A. pose proof (ln_ge_sub1 _ Hq) as B.
  assert (A' : (c + INR (S n)) / INR (S n) - 1 = c / INR (S n)) by (field; lra).
  assert (B' : 1 - / ((c + INR (S n)) / INR (S n)) = c / (c + INR (S n))) by (field; lra).
  rewrite A' in A. rewrite B' in B.
  assert (0 <= c / (c + INR (S n))) by (apply Rle_mult_inv_pos; lra).
  lra.
Qed.

(** The functional equation of the Gamma function, in logarithmic form. *)
Lemma ln_Gamma_succ x : 0 < x -> ln_Gamma (x + 1) = ln_Gamma x + ln x.
Proof.
  intros Hx.
  assert (Hd : Un_cv (fun n => euler_seq (x + 1) n - euler_seq x n)
                 (ln_Gamma (x + 1) - ln_Gamma x)).
  { apply CV_minus; apply ln_Gamma_cv; lra. }
  assert (He : Un_cv (fun n => euler_seq (x + 1) n - euler_seq x n) (ln x - 0)).
  { assert (Hr := ln_ratio_cv (x + 1) ltac:(lra)).
    intros eps Heps. destruct (Hr eps Heps) as [N HN]. exists N. intros n Hn.
    specialize (HN n Hn). rewrite euler_seq_shift by assumption.
    unfold Rdist in *.
    replace (ln x - ln ((x + 1 + INR (S n)) / INR (S n)) - (ln x - 0))
      with (- (ln ((x + 1 + INR (S n)) / INR (S n)) - 0)) by ring.
    rewrite Rabs_Ropp. exact HN. }
  pose proof (UL_sequence _ _ _ Hd He). lra.
Qed.

Lemma ln_Gamma_1 : ln_Gamma 1 = 0.
Proof.
  assert (H1 : Un_cv (euler_seq 1) (ln_Gamma 1)) by (apply ln_Gamma_cv; lra).
  assert (H2 : Un_cv (euler_seq 1) 0).
  { assert (Hr := ln_ratio_cv 1 ltac:(lra)).
    assert (E : forall n, euler_seq 1 n = - ln ((1 + INR (S n)) / INR (S n))).
    { intros n. unfold euler_seq.
      assert (T : forall m, euler_sum 1 m = - ln (1 + INR m)).
      { induction m as [| m IH].
        - simpl. rewrite Rplus_0_r, ln_1. ring.
        - change (euler_sum 1 (S m)) with
            (euler_sum 1 m + (ln (INR (S m)) - ln (1 + INR (S m)))).
          rewrite IH. replace (1 + INR m) with (INR (S m)) by (rewrite S_INR; ring).
          ring. }
      rewrite T, ln_1.
      assert (0 < INR (S n)) by (apply lt_0_INR; lia).
      rewrite ln_quot by lra. ring. }
    intros eps Heps. destruct (Hr eps Heps) as [N HN]. exists N. intros n Hn.
    specialize (HN n Hn). rewrite E. unfold Rdist in *.
    replace (- ln ((1 + INR (S n)) / INR (S n)) - 0)
      with (- (ln ((1 + INR (S n)) / INR (S n)) - 0)) by ring.
    rewrite Rabs_Ropp. exact HN. }
  exact (UL_sequence _ _ _ H1 H2).
Qed.

Lemma ln_Gamma_nat n : ln_Gamma (INR (S n)) = ln (INR (fact n)).
Proof.
  induction n as [| n IH].
  - simpl. rewrite ln_1. apply ln_Gamma_1.
  - rewrite (S_INR (S n)), ln_Gamma_succ by (apply lt_0_INR; lia).
    rewrite IH. change (fact (S n)) with (S n * fact n)%nat.
    rewrite mult_INR, ln_mult; [ring | apply lt_0_INR; lia | apply lt_0_INR, lt_O_fact].
Qed.

(** ** [math.lgamma] and [math.log] on their domains *)

Lemma is_pole_pos x : 0 < x -> is_pole x = false.
Proof.
  intros Hx. unfold is_pole. destruct (Rle_dec x 0); [lra | reflexivity].
Qed.

Lemma is_pole_0 : is_pole 0 = true.
Proof.
  unfold is_pole. destruct (Rle_dec 0 0); [| lra].
  change 0 with (INR 0). rewrite Int_part_INR. simpl.
  destruct (Req_dec_T 0 0); [reflexivity | lra].
Qed.

Lemma log_gamma_pos x : 0 < x -> log_gamma x = Ok (ln_Gamma x).
Proof.
  intros Hx. unfold log_gamma, Py.lgamma, ln_abs_Gamma.
  rewrite is_pole_pos by assumption.
  destruct (Rlt_dec 0 x); [reflexivity | lra].
Qed.

Lemma log_gamma_0 : log_gamma 0 = Raise ValueError.
Proof. unfold log_gamma, Py.lgamma. rewrite is_pole_0. reflexivity. Qed.

Lemma log_pos x : 0 < x -> Py.log x = Ok (ln x).
Proof. intros Hx. unfold Py.log. destruct (Rlt_dec 0 x); [reflexivity | lra]. Qed.

Lemma truediv_nonzero x y : y <> 0 -> Py.truediv x y = Ok (x / y).
Proof.
  intros Hy. unfold Py.truediv. destruct (Req_dec_T y 0); [contradiction | reflexivity].
Qed.

(** ** Loops and list helpers *)

Lemma for_each_Ok_inv {A S : Type} (l : list A) (body : S -> A -> result S) :
  forall s s', for_each l body s = Ok s' ->
  forall x, In x l -> exists s1 s2, body s1 x = Ok s2.
Proof.
  induction l as [| a l IH]; intros s s' Hrun x Hin; [contradiction |].
  simpl in Hrun. destruct (body s a) as [s1 | e] eqn:Ea; simpl in Hrun; [| discriminate].
  destruct Hin as [<- | Hin].
  - exists s, s1. exact Ea.
  - exact (IH _ _ Hrun _ Hin).
Qed.

Lemma for_each_Raise_inv {A S : Type} (l : list A) (body : S -> A -> result S) (e0 : exn) :
  (forall s x e, body s x = Raise e -> e = e0) ->
  forall s e, for_each l body s = Raise e -> e = e0.
Proof.
  intros Hb. induction l as [| a l IH]; intros s e Hrun; simpl in Hrun; [discriminate |].
  destruct (body s a) as [s1 | e1] eqn:Ea; simpl in Hrun.
  - exact (IH _ _ Hrun).
  - injection Hrun as <-. exact (Hb _ _ _ Ea).
Qed.

Lemma combine_seq_nth {A : Type} (d : A) (l : list A) (s : nat) :
  combine (seq s (length l)) l =
  map (fun j => (j, nth (j - s) l d)) (seq s (length l)).
Proof.
  revert s. induction l as [| a l IH]; intros s; [reflexivity |].
  simpl. rewrite Nat.sub_diag. f_equal.
  rewrite IH. apply map_ext_in. intros j Hj. apply in_seq in Hj.
  replace (j - s)%nat with (S (j - S s)) by lia. reflexivity.
Qed.

Lemma enumerate_nth (l : list R) :
  Py.enumerate l = map (fun j => (j, nth j l 0)) (indices l).
Proof.
  unfold Py.enumerate, indices. rewrite (combine_seq_nth 0).
  apply map_ext. intros j. rewrite Nat.sub_0_r. reflexivity.
Qed.

Lemma fold_left_Rplus (l : list R) (a : R) :
  fold_left Rplus l a = a + fold_right Rplus 0 l.
Proof.
  revert a. induction l as [| x l IH]; intros a; simpl; [ring |].
  rewrite IH. ring.
Qed.

Lemma py_sum_fold (l : list R) : Py.sum l = fold_right Rplus 0 l.
Proof. unfold Py.sum. rewrite fold_left_Rplus. ring. Qed.

Lemma py_sum_cons (x : R) (l : list R) : Py.sum (x :: l) = x + Py.sum l.
Proof. rewrite !py_sum_fold. reflexivity. Qed.

Lemma big_sum_map (idx : list nat) (f : nat -> R) :
  big_sum idx f = Py.sum (map f idx).
Proof.
  rewrite py_sum_fold. induction idx as [| j idx IH]; simpl; [reflexivity |].
  rewrite <- IH. reflexivity.
Qed.

Lemma map_nth_indices (l : list R) : map (fun j => nth j l 0) (indices l) = l.
Proof.
  unfold indices. apply nth_ext with (d := 0) (d' := 0).
  - rewrite length_map, length_seq. reflexivity.
  - intros n Hn. rewrite length_map, length_seq in Hn.
    rewrite (nth_indep _ 0 (nth 0 l 0)) by (rewrite length_map, length_seq; exact Hn).
    rewrite (map_nth (fun j => nth j l 0) (seq 0 (length l)) 0%nat n).
    rewrite seq_nth by exact Hn. reflexivity.
Qed.

Lemma big_sum_indices (l : list R) :
  big_sum (indices l) (fun j => nth j l 0) = Py.sum l.
Proof. rewrite big_sum_map, map_nth_indices. reflexivity. Qed.

Lemma py_sum_nonneg (l : list R) : Forall (fun x => 0 <= x) l -> 0 <= Py.sum l.
Proof.
  induction 1 as [| x l Hx _ IH]; [unfold Py.sum; simpl; lra |].
  rewrite py_sum_cons. lra.
Qed.

Lemma py_sum_pos (l : list R) :
  l <> [] -> Forall (fun x => 0 < x) l -> 0 < Py.sum l.
Proof.
  intros Hne Hall. destruct Hall as [| x l Hx Hl]; [contradiction |].
  rewrite py_sum_cons.
  assert (0 <= Py.sum l).
  { apply py_sum_nonneg. eapply Forall_impl; [| exact Hl]. simpl. intros; lra. }
  lra.
Qed.

(** ** Mixture weights: the two nested loops *)

Lemma usable_index (delta : list R) :
  usable delta ->
  forall i j, (i < length delta)%nat -> (j < length delta)%nat -> j <> i ->
  0 < nth j delta 0.
Proof.
  intros [_ [Hk | Hpos]] i j Hi Hj Hij; [lia |].
  rewrite Forall_forall in Hpos. apply Hpos. apply nth_In. exact Hj.
Qed.

Lemma usable_nonneg (delta : list R) :
  usable delta -> forall i, 0 <= nth i delta 0.
Proof.
  intros [Hnn _] i. destruct (Nat.lt_ge_cases i (length delta)) as [Hi | Hi].
  - rewrite Forall_forall in Hnn. apply Hnn. apply nth_In. exact Hi.
  - rewrite nth_overflow by exact Hi. lra.
Qed.

Lemma numerator_loop (delta : list R) (i : nat) :
  forall idx acc,
  (forall j, In j idx -> j <> i -> 0 < nth j delta 0) ->
  for_each (map (fun j => (j, nth j delta 0)) idx)
    (fun log_numerator '(j, d_j) =>
       if negb (Nat.eqb i j) then
         g <- log_gamma d_j ;; Ok (log_numerator + g)
       else Ok log_numerator)
    acc
  = Ok (acc + big_sum (filter (fun j => negb (Nat.eqb j i)) idx)
                      (fun j => ln_Gamma (nth j delta 0))).
Proof.
  induction idx as [| j idx IH]; intros acc Hpos; simpl.
  - f_equal. ring.
  - rewrite (Nat.eqb_sym j i). destruct (Nat.eqb i j) eqn:Eij; simpl.
    + rewrite IH by (intros; apply Hpos; [right |]; assumption). reflexivity.
    + apply Nat.eqb_neq in Eij.
      rewrite log_gamma_pos by (apply Hpos; [left; reflexivity | congruence]).
      simpl. rewrite IH by (intros; apply Hpos; [right |]; assumption).
      f_equal. ring.
Qed.

Lemma numerator_loop_enumerate (delta : list R) (i : nat) (acc : R) :
  (forall j, (j < length delta)%nat -> j <> i -> 0 < nth j delta 0) ->
  for_each (Py.enumerate delta)
    (fun log_numerator '(j, d_j) =>
       if negb (Nat.eqb i j) then
         g <- log_gamma d_j ;; Ok (log_numerator + g)
       else Ok log_numerator)
    acc
  = Ok (acc + big_sum (filter (fun j => negb (Nat.eqb j i)) (indices delta))
                      (fun j => ln_Gamma (nth j delta 0))).
Proof.
  intros Hpos. rewrite enumerate_nth. apply numerator_loop.
  intros j Hj. apply Hpos. unfold indices in Hj. apply in_seq in Hj. lia.
Qed.

Lemma weights_loop (delta : list R) (log_denominator : R) :
  usable delta ->
  forall idx acc,
  (forall i, In i idx -> (i < length delta)%nat) ->
  for_each (map (fun i => (i, nth i delta 0)) idx)
    (fun log_mix_weights '(i, d_i) =>
       log_numerator <- log_gamma (d_i + 1) ;;
       log_numerator <-
         for_each (Py.enumerate delta)
           (fun log_numerator '(j, d_j) =>
              if negb (Nat.eqb i j) then
                g <- log_gamma d_j ;; Ok (log_numerator + g)
              else Ok log_numerator)
           log_numerator ;;
       Ok (log_mix_weights ++ [log_numerator - log_denominator]))
    acc
  = Ok (acc ++
        map (fun i =>
               ln_Gamma (nth i delta 0 + 1)
               + big_sum (filter (fun j => negb (Nat.eqb j i)) (indices delta))
                         (fun j => ln_Gamma (nth j delta 0))
               - log_denominator) idx).
Proof.
  intros Hu. induction idx as [| i idx IH]; intros acc Hidx; simpl.
  - rewrite app_nil_r. reflexivity.
  - pose proof (usable_nonneg delta Hu i) as Hi0.
    rewrite log_gamma_pos by lra. cbn [bind].
    rewrite numerator_loop_enumerate.
    + cbn [bind]. rewrite IH by (intros; apply Hidx; right; assumption).
      rewrite <- app_assoc. reflexivity.
    + intros j Hj Hji. apply (usable_index delta Hu i j); try assumption.
      apply Hidx. left. reflexivity.
Qed.

Lemma get_log_mix_weights_usable (delta : list R) :
  usable delta ->
  Likelihood._get_log_mix_weights delta
  = Ok (map (weight_formula delta) (indices delta)).
Proof.
  intros Hu. unfold Likelihood._get_log_mix_weights.
  assert (Hs : 0 <= Py.sum delta) by (apply py_sum_nonneg, Hu).
  rewrite log_gamma_pos by lra. cbn [bind].
  rewrite enumerate_nth at 1.
  rewrite weights_loop.
  - cbn [app]. f_equal. apply map_ext. intros i. unfold weight_formula.
    rewrite big_sum_indices. reflexivity.
  - exact Hu.
  - intros i Hi. unfold indices in Hi. apply in_seq in Hi. lia.
Qed.

(** Every exception of the derivation is the domain error of [log_gamma]. *)
Lemma log_gamma_Raise x e : log_gamma x = Raise e -> e = ValueError.
Proof.
  unfold log_gamma, Py.lgamma. destruct (is_pole x); [| discriminate].
  intros [= <-]. reflexivity.
Qed.

Lemma get_log_mix_weights_Raise (delta : list R) (e : exn) :
  Likelihood._get_log_mix_weights delta = Raise e -> e = ValueError.
Proof.
  unfold Likelihood._get_log_mix_weights.
  destruct (log_gamma (Py.sum delta + 1)) as [den | e0] eqn:Eden; simpl.
  - apply for_each_Raise_inv. intros ws [i d_i] e1.
    destruct (log_gamma (d_i + 1)) as [num | e2] eqn:Enum; simpl.
    + match goal with
      | |- context [for_each ?l ?b ?s] => destruct (for_each l b s) as [n' | e3] eqn:Einner
      end; simpl; [discriminate |].
      intros [= <-]. revert Einner. apply for_each_Raise_inv.
      intros a [j d_j] e4. destruct (negb (Nat.eqb i j)); [| discriminate].
      destruct (log_gamma d_j) as [g | e5] eqn:Eg; simpl; [discriminate |].
      intros [= <-]. exact (log_gamma_Raise _ _ Eg).
    + intros [= <-]. exact (log_gamma_Raise _ _ Enum).
  - intros [= <-]. exact (log_gamma_Raise _ _ Eden).
Qed.

(** When the derivation returns, [log_gamma] was defined at every entry that
    some other component sees. *)
Lemma get_log_mix_weights_Ok_inv (delta ws : list R) :
  Likelihood._get_log_mix_weights delta = Ok ws ->
  forall i j, (i < length delta)%nat -> (j < length delta)%nat -> i <> j ->
  exists g, log_gamma (nth j delta 0) = Ok g.
Proof.
  unfold Likelihood._get_log_mix_weights.
  destruct (log_gamma (Py.sum delta + 1)) as [den | e0]; simpl; [| discriminate].
  intros Hrun i j Hi Hj Hij.
  assert (Ini : In (i, nth i delta 0) (Py.enumerate delta)).
  { rewrite enumerate_nth.
    apply (in_map (fun j => (j, nth j delta 0))). apply in_seq. lia. }
  assert (Inj : In (j, nth j delta 0) (Py.enumerate delta)).
  { rewrite enumerate_nth.
    apply (in_map (fun j => (j, nth j delta 0))). apply in_seq. lia. }
  destruct (for_each_Ok_inv _ _ _ _ Hrun _ Ini) as (s1 & s2 & Hbody).
  simpl in Hbody.
  destruct (log_gamma (nth i delta 0 + 1)) as [num | e1]; simpl in Hbody; [| discriminate].
  match type of Hbody with
  | context [for_each ?l ?b ?s] => destruct (for_each l b s) as [n' | e3] eqn:Einner
  end; simpl in Hbody; [| discriminate].
  destruct (for_each_Ok_inv _ _ _ _ Einner _ Inj) as (a1 & a2 & Hin).
  simpl in Hin. apply Nat.eqb_neq in Hij. rewrite Hij in Hin. simpl in Hin.
  destruct (log_gamma (nth j delta 0)) as [g | e4]; [| discriminate].
  exists g. reflexivity.
Qed.

Lemma get_log_mix_weights_zero (delta : list R) :
  (2 <= length delta)%nat -> In 0 delta ->
  Likelihood._get_log_mix_weights delta = Raise ValueError.
Proof.
  intros Hk Hz.
  destruct (Likelihood._get_log_mix_weights delta) as [ws | e] eqn:Erun.
  - exfalso. destruct (In_nth _ _ 0 Hz) as (j & Hj & Hnth).
    assert (Hi : exists i, (i < length delta)%nat /\ i <> j).
    { destruct j; [exists 1%nat | exists 0%nat]; split; lia. }
    destruct Hi as (i & Hi & Hij).
    destruct (get_log_mix_weights_Ok_inv _ _ Erun i j Hi Hj Hij) as [g Hg].
    rewrite Hnth, log_gamma_0 in Hg. discriminate.
  - f_equal. exact (get_log_mix_weights_Raise _ _ Erun).
Qed.

(** ** Mixture weights: what they sum to *)

Lemma big_sum_split (idx : list nat) (f : nat -> R) (i : nat) :
  NoDup idx -> In i idx ->
  big_sum (filter (fun j => negb (Nat.eqb j i)) idx) f + f i = big_sum idx f.
Proof.
  induction 1 as [| j idx Hj Hnd IH]; intros Hin; [contradiction |].
  simpl. destruct (Nat.eqb j i) eqn:Eji; simpl.
  - apply Nat.eqb_eq in Eji. subst j.
    assert (E : filter (fun j => negb (Nat.eqb j i)) idx = idx).
    { apply forallb_filter_id. apply forallb_forall. intros j Hjin.
      apply negb_true_iff, Nat.eqb_neq. intros ->. contradiction. }
    rewrite E. ring.
  - apply Nat.eqb_neq in Eji. destruct Hin as [-> | Hin]; [contradiction |].
    rewrite <- (IH Hin). ring.
Qed.

Lemma py_sum_scale (A : Type) (idx : list A) (f : A -> R) (c : R) :
  Py.sum (map (fun i => f i * c) idx) = Py.sum (map f idx) * c.
Proof.
  induction idx as [| i idx IH]; simpl.
  - unfold Py.sum. simpl. ring.
  - rewrite !py_sum_cons, IH. ring.
Qed.

(** Each weight is the logarithm of the normalised pseudo-count, shifted by
    one constant shared by all components. *)
Lemma weight_formula_pos (delta : list R) (i : nat) :
  Forall (fun x => 0 < x) delta -> (i < length delta)%nat ->
  weight_formula delta i
  = ln (nth i delta 0) - ln (Py.sum delta) + ln_multi_Beta delta.
Proof.
  intros Hpos Hi. unfold weight_formula, ln_multi_Beta.
  assert (Hd : 0 < nth i delta 0).
  { rewrite Forall_forall in Hpos. apply Hpos, nth_In, Hi. }
  assert (Hs : 0 < Py.sum delta).
  { apply py_sum_pos; [| exact Hpos]. intros ->. simpl in Hi. lia. }
  rewrite big_sum_indices.
  rewrite (ln_Gamma_succ _ Hd), (ln_Gamma_succ _ Hs).
  pose proof (big_sum_split (indices delta) (fun j => ln_Gamma (nth j delta 0)) i
                (seq_NoDup _ _)) as Hsplit.
  specialize (Hsplit ltac:(apply in_seq; lia)).
  rewrite (big_sum_map (indices delta)) in Hsplit.
  rewrite <- (map_map (fun j => nth j delta 0) ln_Gamma (indices delta)) in Hsplit.
  rewrite map_nth_indices in Hsplit. simpl in Hsplit. lra.
Qed.

Lemma sum_exp_weights (delta : list R) :
  delta <> [] -> Forall (fun x => 0 < x) delta ->
  Py.sum (map exp (map (weight_formula delta) (indices delta)))
  = exp (ln_multi_Beta delta).
Proof.
  intros Hne Hpos.
  assert (Hs : 0 < Py.sum delta) by (apply py_sum_pos; assumption).
  rewrite map_map.
  rewrite (map_ext_in _ (fun i => nth i delta 0 * (exp (ln_multi_Beta delta) / Py.sum delta))).
  - rewrite py_sum_scale, map_nth_indices. field. lra.
  - intros i Hi. unfold indices in Hi. apply in_seq in Hi.
    rewrite weight_formula_pos by (try assumption; lia).
    assert (Hd : 0 < nth i delta 0).
    { rewrite Forall_forall in Hpos. apply Hpos, nth_In. lia. }
    rewrite exp_plus. unfold Rminus. rewrite exp_plus, exp_Ropp.
    rewrite !exp_ln by assumption. field. lra.
Qed.

Lemma usable_pos (delta : list R) : Forall (fun x => 0 < x) delta -> usable delta.
Proof.
  intros Hpos. split; [| right; exact Hpos].
  eapply Forall_impl; [| exact Hpos]. simpl. intros; lra.
Qed.

Lemma usable_returns (delta : list R) : usable delta -> returns_weights delta.
Proof.
  intros Hu. exists (map (weight_formula delta) (indices delta)).
  split; [apply get_log_mix_weights_usable, Hu |].
  split; [unfold indices; rewrite length_map, length_seq; reflexivity |].
  intros i Hi.
  rewrite (nth_indep _ 0 (weight_formula delta 0))
    by (unfold indices; rewrite length_map, length_seq; exact Hi).
  rewrite (map_nth (weight_formula delta) (indices delta) 0%nat i).
  unfold indices. rewrite seq_nth by exact Hi. reflexivity.
Qed.

Lemma Likelihood_init_usable `{Utils} (data_point : DataPoint.t) :
  usable (DataPoint.delta_r data_point) ->
  usable (DataPoint.delta_v data_point) ->
  Likelihood.__init__ data_point
  = Ok (Likelihood.mk
          (DataPoint.a data_point) (DataPoint.d data_point)
          (map (weight_formula (DataPoint.delta_r data_point))
               (indices (DataPoint.delta_r data_point)))
          (map (weight_formula (DataPoint.delta_v data_point))
               (indices (DataPoint.delta_v data_point)))
          (log_binomial_coefficient (DataPoint.d data_point)
                                    (DataPoint.a data_point))
          OrderedDict.empty).
Proof.
  intros Hr Hv. unfold Likelihood.__init__.
  rewrite !get_log_mix_weights_usable by assumption. reflexivity.
Qed.

Lemma Likelihood_init_inv `{Utils} (data_point : DataPoint.t) (self : Likelihood.t) :
  Likelihood.__init__ data_point = Ok self ->
  Likelihood._get_log_mix_weights (DataPoint.delta_r data_point)
    = Ok (Likelihood.log_pi_r self)
  /\ Likelihood._get_log_mix_weights (DataPoint.delta_v data_point)
    = Ok (Likelihood.log_pi_v self)
  /\ Likelihood.a self = DataPoint.a data_point
  /\ Likelihood.d self = DataPoint.d data_point
  /\ Likelihood._log_binomial_norm_const self
     = log_binomial_coefficient (DataPoint.d data_point) (DataPoint.a data_point)
  /\ Likelihood._ll_cache self = OrderedDict.empty.
Proof.
  unfold Likelihood.__init__.
  destruct (Likelihood._get_log_mix_weights (DataPoint.delta_r data_point)) as [wr | e];
    simpl; [| discriminate].
  destruct (Likelihood._get_log_mix_weights (DataPoint.delta_v data_point)) as [wv | e];
    simpl; [| discriminate].
  intros [= <-]. simpl. repeat split; reflexivity.
Qed.

(** ** Mixture weights: the claims *)

(** C4 (amended).  For pseudo-counts that are non-negative, and strictly
    positive when there are two or more of them, the derivation returns one
    log-weight per pseudo-count,
    [weight_i = log_gamma (delta_i + 1) + sum_(j <> i) log_gamma delta_j
                - log_gamma (sum_j delta_j + 1)],
    and [Likelihood.__init__] stores the result of that same derivation,
    run once on [delta_r] and once on [delta_v]. *)
Theorem mix_weights_formula `{Utils} (data_point : DataPoint.t)
    (Hr : usable (DataPoint.delta_r data_point))
    (Hv : usable (DataPoint.delta_v data_point)) :
  returns_weights (DataPoint.delta_r data_point)
  /\ returns_weights (DataPoint.delta_v data_point)
  /\ exists self,
       Likelihood.__init__ data_point = Ok self
       /\ Likelihood._get_log_mix_weights (DataPoint.delta_r data_point)
          = Ok (Likelihood.log_pi_r self)
       /\ Likelihood._get_log_mix_weights (DataPoint.delta_v data_point)
          = Ok (Likelihood.log_pi_v self).
Proof.
  split; [apply usable_returns, Hr |].
  split; [apply usable_returns, Hv |].
  eexists. split; [apply Likelihood_init_usable; assumption |].
  simpl. split; apply get_log_mix_weights_usable; assumption.
Qed.

Lemma sample_point_usable :
  usable (DataPoint.delta_r sample_point)
  /\ usable (DataPoint.delta_v sample_point).
Proof.
  split; apply usable_pos; simpl; repeat constructor; lra.
Qed.

Lemma mix_weights_formula_witness :
  returns_weights [2; 2]
  /\ returns_weights [3]
  /\ exists self,
       Likelihood.__init__ (H := textbook_utils) sample_point = Ok self
       /\ Likelihood._get_log_mix_weights [2; 2] = Ok (Likelihood.log_pi_r self)
       /\ Likelihood._get_log_mix_weights [3] = Ok (Likelihood.log_pi_v self).
Proof.
  exact (mix_weights_formula (H := textbook_utils) sample_point
           (proj1 sample_point_usable) (proj2 sample_point_usable)).
Defined.

(** C4 as stated fails at [delta = [0; 1]]: the entries are non-negative,
    yet the second weight needs [log_gamma 0] and nothing is returned. *)
Lemma mix_weights_formula_zero :
  Forall (fun x => 0 <= x) [0; 1]
  /\ (1 <= length [0; 1])%nat
  /\ Likelihood._get_log_mix_weights [0; 1] = Raise ValueError
  /\ ~ returns_weights [0; 1].
Proof.
  assert (E : Likelihood._get_log_mix_weights [0; 1] = Raise ValueError).
  { apply get_log_mix_weights_zero; simpl; [lia | left; reflexivity]. }
  split; [repeat constructor; lra |].
  split; [simpl; lia |].
  split; [exact E |].
  intros (ws & Hws & _). rewrite E in Hws. discriminate.
Qed.

(** C5 (amended).  For every [Likelihood] instance, the exponentials of the
    log-weights of a non-empty, strictly positive pseudo-count sequence sum to
    [prod_j Gamma delta_j / Gamma (sum_j delta_j)]; the sum is [1] when the
    sequence has a single (non-negative) entry. *)
Theorem mix_weights_sum `{Utils} (data_point : DataPoint.t) (self : Likelihood.t)
    (Hinit : Likelihood.__init__ data_point = Ok self)
    (Hr : usable (DataPoint.delta_r data_point))
    (Hv : usable (DataPoint.delta_v data_point)) :
  let total ws := Py.sum (map exp ws) in
  forall delta log_pi,
    (delta, log_pi) = (DataPoint.delta_r data_point, Likelihood.log_pi_r self)
    \/ (delta, log_pi) = (DataPoint.delta_v data_point, Likelihood.log_pi_v self) ->
    (delta <> [] -> Forall (fun x => 0 < x) delta ->
     total log_pi = exp (ln_multi_Beta delta))
    /\ (length delta = 1%nat -> total log_pi = 1).
Proof.
  intros total delta log_pi Hside.
  assert (Hu : usable delta /\ Likelihood._get_log_mix_weights delta = Ok log_pi).
  { destruct (Likelihood_init_inv _ _ Hinit) as (Er & Ev & _).
    destruct Hside as [[= -> ->] | [= -> ->]]; split; assumption. }
  destruct Hu as [Hu Hrun].
  rewrite get_log_mix_weights_usable in Hrun by exact Hu.
  injection Hrun as <-. split.
  - intros Hne Hpos. apply sum_exp_weights; assumption.
  - intros Hlen. destruct delta as [| x [| y l]]; try discriminate.
    unfold total, indices, weight_formula. simpl.
    replace (0 + x + 1) with (x + 1) by ring.
    rewrite py_sum_cons. unfold Py.sum. simpl.
    replace (ln_Gamma (x + 1) + 0 - ln_Gamma (x + 0 + 1)) with 0.
    + rewrite exp_0. ring.
    + replace (x + 0 + 1) with (x + 1) by ring. ring.
Qed.

Lemma sample_init :
  Likelihood.__init__ (H := textbook_utils) sample_point
  = Ok (Likelihood.mk 5 10
          (map (weight_formula [2; 2]) [0; 1]%nat)
          (map (weight_formula [3]) [0%nat])
          (log_binomial_coefficient (Utils := textbook_utils) 10 5)
          OrderedDict.empty).
Proof.
  exact (Likelihood_init_usable (H := textbook_utils) sample_point
           (proj1 sample_point_usable) (proj2 sample_point_usable)).
Qed.

Lemma mix_weights_sum_witness :
  Py.sum (map exp (map (weight_formula [2; 2]) [0; 1]%nat))
  = exp (ln_multi_Beta [2; 2])
  /\ Py.sum (map exp (map (weight_formula [3]) [0%nat])) = 1.
Proof.
  pose proof (mix_weights_sum (H := textbook_utils) sample_point _ sample_init
                (proj1 sample_point_usable) (proj2 sample_point_usable)) as W.
  split.
  - refine (proj1 (W [2; 2] _ (or_introl eq_refl)) _ _).
    + discriminate.
    + repeat constructor; lra.
  - exact (proj2 (W [3] _ (or_intror eq_refl)) eq_refl).
Defined.

Lemma ln_Gamma_2 : ln_Gamma 2 = 0.
Proof.
  replace 2 with (INR 2) by (simpl; ring). rewrite ln_Gamma_nat. simpl. apply ln_1.
Qed.

Lemma ln_Gamma_4 : ln_Gamma 4 = ln 6.
Proof.
  replace 4 with (INR 4) by (simpl; ring). rewrite ln_Gamma_nat.
  f_equal. simpl. ring.
Qed.

(** C5 as stated fails at [delta = [2; 2]]: both weights are [ln (1/12)],
    and their exponentials sum to [1/6]. *)
Lemma mix_weights_sum_two_two :
  exists ws,
    Likelihood._get_log_mix_weights [2; 2] = Ok ws
    /\ Py.sum (map exp ws) = 1 / 6
    /\ ~ Rabs (Py.sum (map exp ws) - 1) <= 1 / 1000000000.
Proof.
  assert (Hpos : Forall (fun x => 0 < x) [2; 2]) by (repeat constructor; lra).
  exists (map (weight_formula [2; 2]) (indices [2; 2])).
  split; [apply get_log_mix_weights_usable, usable_pos, Hpos |].
  assert (E : Py.sum (map exp (map (weight_formula [2; 2]) (indices [2; 2]))) = 1 / 6).
  { rewrite sum_exp_weights by (try discriminate; exact Hpos).
    unfold ln_multi_Beta, Py.sum. simpl.
    replace (0 + 2 + 2) with 4 by ring.
    rewrite ln_Gamma_2, ln_Gamma_4.
    replace (0 + 0 + 0 - ln 6) with (- ln 6) by ring.
    rewrite exp_Ropp, exp_ln by lra. lra. }
  split; [exact E |].
  rewrite E. intros Habs.
  replace (1 / 6 - 1) with (- (5 / 6)) in Habs by lra.
  rewrite Rabs_Ropp, Rabs_pos_eq in Habs by lra. lra.
Qed.

(** C6 (amended).  On non-negative pseudo-counts the derivation returns its
    log-weights (each a real number) exactly when there is at most one
    pseudo-count or none of them is zero; a zero among two or more entries
    makes it fail with the domain error of [log_gamma 0]. *)
Theorem mix_weights_defined (delta : list R)
    (Hnn : Forall (fun x => 0 <= x) delta) :
  ((exists ws, Likelihood._get_log_mix_weights delta = Ok ws
               /\ length ws = length delta)
   <-> ((length delta <= 1)%nat \/ Forall (fun x => 0 < x) delta))
  /\ ((2 <= length delta)%nat -> In 0 delta ->
      Likelihood._get_log_mix_weights delta = Raise ValueError).
Proof.
  split; [| apply get_log_mix_weights_zero].
  split.
  - intros (ws & Hws & _).
    destruct (Nat.le_gt_cases (length delta) 1) as [Hk | Hk]; [left; exact Hk | right].
    rewrite Forall_forall in *. intros x Hx.
    destruct (Hnn x Hx) as [Hlt | <-]; [exact Hlt | exfalso].
    assert (E : Likelihood._get_log_mix_weights delta = Raise ValueError).
    { apply get_log_mix_weights_zero; [lia | exact Hx]. }
    rewrite E in Hws. discriminate.
  - intros Hcase. destruct (usable_returns delta (conj Hnn Hcase)) as (ws & Hws & Hlen & _).
    exists ws. split; assumption.
Qed.

Lemma mix_weights_defined_witness :
  Forall (fun x => 0 <= x) [1; 2]
  /\ exists ws, Likelihood._get_log_mix_weights [1; 2] = Ok ws
                /\ length ws = 2%nat.
Proof.
  assert (Hnn : Forall (fun x => 0 <= x) [1; 2]) by (repeat constructor; lra).
  split; [exact Hnn |].
  apply (proj2 (proj1 (mix_weights_defined [1; 2] Hnn))).
  right. repeat constructor; lra.
Defined.

(** C6 as stated fails at [delta = [1; 0]]: the first weight needs
    [log_gamma 0], which is a domain error, not a finite value. *)
Lemma mix_weights_defined_zero :
  Forall (fun x => 0 <= x) [1; 0]
  /\ Likelihood._get_log_mix_weights [1; 0] = Raise ValueError.
Proof.
  split; [repeat constructor; lra |].
  apply get_log_mix_weights_zero; simpl; [lia | right; left; reflexivity].
Qed.

(** ** Loops that append to a list *)

Lemma fold_left_append {X C : Type} (body : list C -> X -> list C) (F : X -> list C) :
  (forall ll x, body ll x = ll ++ F x) ->
  forall l acc, fold_left body l acc = acc ++ flat_map F l.
Proof.
  intros Hb. induction l as [| x l IH]; intros acc; simpl.
  - rewrite app_nil_r. reflexivity.
  - rewrite IH, Hb, app_assoc. reflexivity.
Qed.

Lemma flat_map_single {X C : Type} (f : X -> C) (l : list X) :
  flat_map (fun x => [f x]) l = map f l.
Proof. induction l as [| x l IH]; simpl; [| rewrite IH]; reflexivity. Qed.

Lemma flat_map_map {X Y C : Type} (g : X -> Y) (F : Y -> list C) (l : list X) :
  flat_map F (map g l) = flat_map (fun x => F (g x)) l.
Proof. induction l as [| x l IH]; simpl; [| rewrite IH]; reflexivity. Qed.

Lemma combine_nth_seq {A B : Type} (da : A) (db : B) (la : list A) (lb : list B) :
  combine la lb
  = map (fun i => (nth i la da, nth i lb db))
        (seq 0 (Nat.min (length la) (length lb))).
Proof.
  revert lb. induction la as [| x la IH]; intros [| y lb]; try reflexivity.
  simpl. f_equal. rewrite <- seq_shift, map_map. apply IH.
Qed.

Lemma comprehension_Ok {A B : Type} (f : A -> result B) (g : A -> B) (l : list A) :
  (forall x, In x l -> f x = Ok (g x)) -> comprehension f l = Ok (map g l).
Proof.
  induction l as [| x l IH]; intros Hf; simpl; [reflexivity |].
  rewrite (Hf x (or_introl eq_refl)). simpl.
  rewrite IH by (intros; apply Hf; right; assumption). reflexivity.
Qed.

Lemma for_each_length {A C : Type} (l : list A) (body : list C -> A -> result (list C)) :
  (forall s x s', body s x = Ok s' -> length s' = S (length s)) ->
  forall s s', for_each l body s = Ok s' ->
  length s' = (length s + length l)%nat.
Proof.
  intros Hb. induction l as [| x l IH]; intros s s' Hrun; simpl in Hrun.
  - injection Hrun as <-. simpl. lia.
  - destruct (body s x) as [s1 | e] eqn:E1; simpl in Hrun; [| discriminate].
    rewrite (IH _ _ Hrun), (Hb _ _ _ E1). simpl. lia.
Qed.

Lemma get_log_mix_weights_length (delta ws : list R) :
  Likelihood._get_log_mix_weights delta = Ok ws -> length ws = length delta.
Proof.
  unfold Likelihood._get_log_mix_weights.
  destruct (log_gamma (Py.sum delta + 1)) as [den | e]; simpl; [| discriminate].
  intros Hrun. apply for_each_length in Hrun.
  - rewrite Hrun. unfold Py.enumerate. simpl.
    rewrite length_combine, length_seq. lia.
  - intros s [i d_i] s'.
    destruct (log_gamma (d_i + 1)) as [num | e]; simpl; [| discriminate].
    match goal with
    | |- context [for_each ?l ?b ?a] => destruct (for_each l b a) as [n' | e]
    end; simpl; [| discriminate].
    intros [= <-]. rewrite length_app. simpl. lia.
Qed.

(** ** The binomial likelihood *)

Lemma log_binomial_likelihood_kernel `{Utils}
    (data_point : DataPoint.t) (self : Likelihood.t) (phi mu_r mu_v : R) :
  Likelihood.__init__ data_point = Ok self ->
  Likelihood._log_binomial_likelihood self phi mu_r mu_v
  = log_binomial_coefficient (DataPoint.d data_point) (DataPoint.a data_point)
    + log_binomial_likelihood (DataPoint.a data_point) (DataPoint.d data_point)
        ((1 - phi) * mu_r + phi * mu_v).
Proof.
  intros Hinit.
  destruct (Likelihood_init_inv _ _ Hinit) as (_ & _ & Ea & Ed & Ec & _).
  unfold Likelihood._log_binomial_likelihood. rewrite Ea, Ed, Ec. reflexivity.
Qed.

Lemma binomial_cross_product `{Utils} (self : BinomialLikelihood.t) (phi : R) :
  BinomialLikelihood._log_likelihood self phi
  = log_sum_exp
      (cross_product
         (components (BinomialLikelihood.mu_r self)
                     (Likelihood.log_pi_r (BinomialLikelihood.base self)))
         (components (BinomialLikelihood.mu_v self)
                     (Likelihood.log_pi_v (BinomialLikelihood.base self)))
         (fun i j =>
            nth i (Likelihood.log_pi_r (BinomialLikelihood.base self)) 0
            + nth j (Likelihood.log_pi_v (BinomialLikelihood.base self)) 0
            + Likelihood._log_binomial_likelihood (BinomialLikelihood.base self) phi
                (nth i (BinomialLikelihood.mu_r self) 0)
                (nth j (BinomialLikelihood.mu_v self) 0))).
Proof.
  unfold BinomialLikelihood._log_likelihood. cbv zeta. f_equal.
  set (term := fun (p q : R * R) =>
         snd p + snd q
         + Likelihood._log_binomial_likelihood (BinomialLikelihood.base self) phi
             (fst p) (fst q)).
  rewrite (fold_left_append _
             (fun p => map (term p)
                (combine (BinomialLikelihood.mu_v self)
                   (Likelihood.log_pi_v (BinomialLikelihood.base self))))).
  - simpl. rewrite (combine_nth_seq 0 0 (BinomialLikelihood.mu_r self)),
      (combine_nth_seq 0 0 (BinomialLikelihood.mu_v self)).
    rewrite flat_map_map. unfold cross_product, components.
    apply flat_map_ext. intros i. rewrite map_map. reflexivity.
  - intros ll [mu_r log_pi_r].
    rewrite (fold_left_append _ (fun q => [term (mu_r, log_pi_r) q])).
    + rewrite flat_map_single. reflexivity.
    + intros ll' [mu_v log_pi_v]. reflexivity.
Qed.

Lemma components_well_formed (mu delta log_pi : list R) :
  Likelihood._get_log_mix_weights delta = Ok log_pi ->
  components mu log_pi = Nat.min (length mu) (length delta)
  /\ (length mu = length delta -> components mu log_pi = length mu).
Proof.
  intros Hrun. apply get_log_mix_weights_length in Hrun.
  unfold components. rewrite Hrun. split; [reflexivity | intros ->; apply Nat.min_id].
Qed.

Lemma BinomialLikelihood_init_inv `{Utils}
    (data_point : DataPoint.t) (self : BinomialLikelihood.t) :
  BinomialLikelihood.__init__ data_point = Ok self ->
  Likelihood.__init__ data_point = Ok (BinomialLikelihood.base self)
  /\ BinomialLikelihood.mu_r self = DataPoint.mu_r data_point
  /\ BinomialLikelihood.mu_v self = DataPoint.mu_v data_point.
Proof.
  unfold BinomialLikelihood.__init__.
  destruct (Likelihood.__init__ data_point) as [base | e]; simpl; [| discriminate].
  intros [= <-]. simpl. repeat split; reflexivity.
Qed.

(** C1.  For an instance built from a [DataPoint] and every [phi], the
    shared kernel is
    [log_binomial_coefficient d a
     + log_binomial_likelihood a d ((1 - phi) * mu_r + phi * mu_v)],
    and [BinomialLikelihood._log_likelihood phi] is the log-sum-exp, over the
    full cross product of reference and variant components, of
    [log_pi_r[i] + log_pi_v[j] + kernel phi mu_r[i] mu_v[j]].  There are
    [len mu_r] reference and [len mu_v] variant components when the data
    point has one pseudo-count per frequency. *)
Theorem binomial_log_likelihood `{Utils}
    (data_point : DataPoint.t) (self : BinomialLikelihood.t) (phi : R)
    (Hinit : BinomialLikelihood.__init__ data_point = Ok self) :
  let kernel := Likelihood._log_binomial_likelihood (BinomialLikelihood.base self) phi in
  let log_pi_r := Likelihood.log_pi_r (BinomialLikelihood.base self) in
  let log_pi_v := Likelihood.log_pi_v (BinomialLikelihood.base self) in
  let n_r := components (DataPoint.mu_r data_point) log_pi_r in
  let n_v := components (DataPoint.mu_v data_point) log_pi_v in
  (forall mu_r mu_v,
     kernel mu_r mu_v
     = log_binomial_coefficient (DataPoint.d data_point) (DataPoint.a data_point)
       + log_binomial_likelihood (DataPoint.a data_point) (DataPoint.d data_point)
           ((1 - phi) * mu_r + phi * mu_v))
  /\ BinomialLikelihood._log_likelihood self phi
     = log_sum_exp
         (cross_product n_r n_v
            (fun i j =>
               nth i log_pi_r 0 + nth j log_pi_v 0
               + kernel (nth i (DataPoint.mu_r data_point) 0)
                        (nth j (DataPoint.mu_v data_point) 0)))
  /\ (well_formed data_point ->
      n_r = length (DataPoint.mu_r data_point)
      /\ n_v = length (DataPoint.mu_v data_point)).
Proof.
  intros kernel log_pi_r log_pi_v n_r n_v.
  destruct (BinomialLikelihood_init_inv _ _ Hinit) as (Hbase & Emr & Emv).
  destruct (Likelihood_init_inv _ _ Hbase) as (Er & Ev & _).
  split; [| split].
  - intros mu_r mu_v. apply log_binomial_likelihood_kernel. exact Hbase.
  - rewrite binomial_cross_product, Emr, Emv. reflexivity.
  - intros [Hlr Hlv]. split.
    + exact (proj2 (components_well_formed _ _ _ Er) Hlr).
    + exact (proj2 (components_well_formed _ _ _ Ev) Hlv).
Qed.

Lemma sample_binomial_init :
  BinomialLikelihood.__init__ (H := textbook_utils) sample_point = Ok sample_binomial.
Proof.
  unfold BinomialLikelihood.__init__. rewrite sample_init. reflexivity.
Qed.

Lemma binomial_log_likelihood_witness :
  BinomialLikelihood._log_likelihood (H := textbook_utils) sample_binomial (1 / 2)
  = log_sum_exp
      (cross_product 2 1
         (fun i j =>
            nth i (Likelihood.log_pi_r sample_base) 0
            + nth j (Likelihood.log_pi_v sample_base) 0
            + Likelihood._log_binomial_likelihood (H := textbook_utils)
                sample_base (1 / 2)
                (nth i [1 / 4; 1 / 2] 0) (nth j [1 / 2] 0))).
Proof.
  exact (proj1 (proj2 (binomial_log_likelihood (H := textbook_utils)
                         sample_point sample_binomial (1 / 2)
                         sample_binomial_init))).
Defined.

(** ** The beta-binomial likelihood: construction *)

Lemma set_beta_params_map (mu_v : list R) (s : R) :
  BetaBinomialLikelihood._set_beta_params mu_v s
  = (map (fun m => s * m) mu_v, map (fun m => s - s * m) mu_v).
Proof.
  unfold BetaBinomialLikelihood._set_beta_params.
  assert (G : forall l a b,
             fold_left
               (fun '(alpha_v, beta_v) m =>
                  let alpha := s * m in
                  let beta := s - alpha in
                  (alpha_v ++ [alpha], beta_v ++ [beta])) l (a, b)
             = (a ++ map (fun m => s * m) l, b ++ map (fun m => s - s * m) l)).
  { induction l as [| m l IH]; intros a b; simpl.
    - rewrite !app_nil_r. reflexivity.
    - rewrite IH, <- !app_assoc. reflexivity. }
  apply G.
Qed.

Lemma range_In (n i : Z) : In i (Py.range n) <-> (0 <= i < n)%Z.
Proof.
  unfold Py.range. rewrite in_map_iff. split.
  - intros (k & <- & Hk). apply in_seq in Hk. lia.
  - intros Hi. exists (Z.to_nat i). split; [lia | apply in_seq; lia].
Qed.

Lemma getitem_map_range {B : Type} (f : Z -> B) (n i : Z) :
  (0 <= i < n)%Z -> Py.getitem (map f (Py.range n)) i = Ok (f i).
Proof.
  intros Hi. unfold Py.getitem.
  destruct (i <? 0)%Z eqn:Ei; [apply Z.ltb_lt in Ei; lia |]. rewrite Ei.
  unfold Py.range. rewrite map_map, nth_error_map.
  rewrite (nth_error_nth' _ 0%nat) by (rewrite length_seq; lia).
  rewrite seq_nth by lia. simpl. rewrite Z2Nat.id by lia. reflexivity.
Qed.

Lemma range_of_nat (n : nat) : Py.range (Z.of_nat n) = map Z.of_nat (seq 0 n).
Proof. unfold Py.range. rewrite Nat2Z.id. reflexivity. Qed.

Lemma set_mesh_pos (mesh_size : Z) :
  (1 <= mesh_size)%Z ->
  BetaBinomialLikelihood._set_mesh mesh_size
  = Ok (midpoints (Z.to_nat mesh_size), - ln (IZR mesh_size)).
Proof.
  intros HM. unfold BetaBinomialLikelihood._set_mesh.
  assert (HR : 0 < IZR mesh_size) by (apply IZR_lt; lia).
  rewrite (comprehension_Ok _ (fun i => IZR i / IZR mesh_size))
    by (intros; apply truediv_nonzero; lra).
  cbn [bind].
  rewrite (comprehension_Ok _
             (fun i => (IZR i / IZR mesh_size + IZR (i + 1) / IZR mesh_size) / 2)).
  - cbn [bind]. rewrite log_pos by exact HR. cbn [bind]. f_equal. f_equal.
    unfold midpoints, Py.range. rewrite map_map. apply map_ext. intros i.
    rewrite plus_IZR, <- INR_IZR_INZ.
    replace (INR (Z.to_nat mesh_size)) with (IZR mesh_size)
      by (rewrite INR_IZR_INZ, Z2Nat.id by lia; reflexivity).
    field. lra.
  - intros i Hi. apply range_In in Hi.
    rewrite !getitem_map_range by lia. reflexivity.
Qed.

Lemma set_mesh_Ok_inv (mesh_size : Z) (x : list R * R) :
  BetaBinomialLikelihood._set_mesh mesh_size = Ok x -> (1 <= mesh_size)%Z.
Proof.
  intros Hrun. destruct (Z_lt_le_dec mesh_size 1) as [Hlt | Hle]; [exfalso | exact Hle].
  unfold BetaBinomialLikelihood._set_mesh in Hrun.
  destruct (Z.eq_dec mesh_size 0) as [-> | Hne].
  - simpl in Hrun. unfold Py.truediv in Hrun.
    destruct (Req_dec_T 0 0); [discriminate | lra].
  - assert (Hneg : (mesh_size < 0)%Z) by lia.
    assert (E1 : Py.range (mesh_size + 1) = []).
    { unfold Py.range. replace (Z.to_nat (mesh_size + 1)) with 0%nat by lia. reflexivity. }
    assert (E2 : Py.range mesh_size = []).
    { unfold Py.range. replace (Z.to_nat mesh_size) with 0%nat by lia. reflexivity. }
    rewrite E1, E2 in Hrun. simpl in Hrun. unfold Py.log in Hrun.
    assert (IZR mesh_size < 0) by (apply IZR_lt; lia).
    destruct (Rlt_dec 0 (IZR mesh_size)); [lra | discriminate].
Qed.

Lemma BetaBinomialLikelihood_init_inv `{Utils}
    (data_point : DataPoint.t) (mesh_size : Z) (beta_precision : R)
    (self : BetaBinomialLikelihood.t) :
  BetaBinomialLikelihood.__init__ data_point mesh_size beta_precision = Ok self ->
  (1 <= mesh_size)%Z
  /\ Likelihood.__init__ data_point = Ok (BetaBinomialLikelihood.base self)
  /\ BetaBinomialLikelihood.mu_r self = DataPoint.mu_r data_point
  /\ BetaBinomialLikelihood.alpha_v self
     = map (fun m => beta_precision * m) (DataPoint.mu_v data_point)
  /\ BetaBinomialLikelihood.beta_v self
     = map (fun m => beta_precision - beta_precision * m) (DataPoint.mu_v data_point)
  /\ BetaBinomialLikelihood._mesh self = midpoints (Z.to_nat mesh_size)
  /\ BetaBinomialLikelihood._log_xi self = - ln (IZR mesh_size).
Proof.
  unfold BetaBinomialLikelihood.__init__.
  destruct (Likelihood.__init__ data_point) as [base | e]; cbn [bind]; [| discriminate].
  rewrite set_beta_params_map.
  destruct (BetaBinomialLikelihood._set_mesh mesh_size) as [[mesh lx] | e] eqn:Emesh;
    cbn [bind]; [| discriminate].
  pose proof (set_mesh_Ok_inv _ _ Emesh) as HM.
  rewrite (set_mesh_pos _ HM) in Emesh. injection Emesh as <- <-.
  intros [= <-]. simpl. repeat split; try reflexivity. exact HM.
Qed.

Lemma midpoints_length (M : nat) : length (midpoints M) = M.
Proof. unfold midpoints. rewrite length_map, length_seq. reflexivity. Qed.

Lemma midpoints_nth (M i : nat) :
  (i < M)%nat -> nth i (midpoints M) 0 = (2 * INR i + 1) / (2 * INR M).
Proof.
  intros Hi. unfold midpoints.
  rewrite (nth_indep _ 0 ((2 * INR 0 + 1) / (2 * INR M)))
    by (rewrite length_map, length_seq; exact Hi).
  rewrite (map_nth (fun i => (2 * INR i + 1) / (2 * INR M)) (seq 0 M) 0%nat i).
  rewrite seq_nth by exact Hi. reflexivity.
Qed.

Lemma midpoints_interior (M : nat) : Forall (fun m => 0 < m < 1) (midpoints M).
Proof.
  apply Forall_forall. intros m Hm. unfold midpoints in Hm.
  apply in_map_iff in Hm. destruct Hm as (i & <- & Hi). apply in_seq in Hi.
  assert (HM : 0 < INR M) by (apply lt_0_INR; lia).
  assert (Hi0 : 0 <= INR i) by apply pos_INR.
  assert (Hi1 : INR i + 1 <= INR M).
  { rewrite <- S_INR. apply le_INR. lia. }
  split.
  - apply Rdiv_lt_0_compat; lra.
  - apply Rmult_lt_reg_r with (2 * INR M); [lra |].
    unfold Rdiv. rewrite Rmult_assoc, Rinv_l by lra. lra.
Qed.

Lemma midpoints_increasing (M : nat) : strictly_increasing (midpoints M).
Proof.
  intros i j Hij Hj. rewrite midpoints_length in Hj.
  rewrite !midpoints_nth by lia.
  assert (HM : 0 < INR M) by (apply lt_0_INR; lia).
  assert (INR i < INR j) by (apply lt_INR; exact Hij).
  unfold Rdiv. apply Rmult_lt_compat_r; [apply Rinv_0_lt_compat; lra | lra].
Qed.

(** ** The beta-binomial likelihood: evaluation *)

Lemma zip3_nth_seq {A B C : Type} (da : A) (db : B) (dc : C)
    (la : list A) (lb : list B) (lc : list C) :
  Py.zip3 la lb lc
  = map (fun i => (nth i la da, nth i lb db, nth i lc dc))
        (seq 0 (Nat.min (length la) (Nat.min (length lb) (length lc)))).
Proof.
  revert lb lc. induction la as [| x la IH]; intros [| y lb] [| z lc];
    try reflexivity.
  simpl. f_equal. rewrite <- seq_shift, map_map. apply IH.
Qed.

Lemma log_beta_binomial_mesh `{Utils}
    (self : BetaBinomialLikelihood.t) (phi mu_r alpha_v beta_v : R) :
  BetaBinomialLikelihood._log_beta_binomial_likelihood self phi mu_r alpha_v beta_v
  = log_sum_exp
      (map (fun m =>
              Likelihood._log_binomial_likelihood
                (BetaBinomialLikelihood.base self) phi mu_r m
              + log_beta_pdf m alpha_v beta_v
              + BetaBinomialLikelihood._log_xi self)
           (BetaBinomialLikelihood._mesh self)).
Proof.
  unfold BetaBinomialLikelihood._log_beta_binomial_likelihood. cbv zeta. f_equal.
  rewrite (fold_left_append _
             (fun m => [Likelihood._log_binomial_likelihood
                          (BetaBinomialLikelihood.base self) phi mu_r m
                        + log_beta_pdf m alpha_v beta_v
                        + BetaBinomialLikelihood._log_xi self]))
    by reflexivity.
  apply flat_map_single.
Qed.

Lemma beta_binomial_cross_product `{Utils} (self : BetaBinomialLikelihood.t) (phi : R) :
  length (BetaBinomialLikelihood.alpha_v self)
    = length (BetaBinomialLikelihood.beta_v self) ->
  BetaBinomialLikelihood._log_likelihood self phi
  = log_sum_exp
      (cross_product
         (components (BetaBinomialLikelihood.mu_r self)
                     (Likelihood.log_pi_r (BetaBinomialLikelihood.base self)))
         (components (BetaBinomialLikelihood.alpha_v self)
                     (Likelihood.log_pi_v (BetaBinomialLikelihood.base self)))
         (fun i j =>
            nth i (Likelihood.log_pi_r (BetaBinomialLikelihood.base self)) 0
            + nth j (Likelihood.log_pi_v (BetaBinomialLikelihood.base self)) 0
            + BetaBinomialLikelihood._log_beta_binomial_likelihood self phi
                (nth i (BetaBinomialLikelihood.mu_r self) 0)
                (nth j (BetaBinomialLikelihood.alpha_v self) 0)
                (nth j (BetaBinomialLikelihood.beta_v self) 0))).
Proof.
  intros Hab. unfold BetaBinomialLikelihood._log_likelihood. cbv zeta. f_equal.
  set (term := fun (p : R * R) (q : R * R * R) =>
         snd p + snd q
         + BetaBinomialLikelihood._log_beta_binomial_likelihood self phi
             (fst p) (fst (fst q)) (snd (fst q))).
  rewrite (fold_left_append _
             (fun p => map (term p)
                (Py.zip3 (BetaBinomialLikelihood.alpha_v self)
                   (BetaBinomialLikelihood.beta_v self)
                   (Likelihood.log_pi_v (BetaBinomialLikelihood.base self))))).
  - simpl. rewrite (combine_nth_seq 0 0 (BetaBinomialLikelihood.mu_r self)),
      (zip3_nth_seq 0 0 0 (BetaBinomialLikelihood.alpha_v self)).
    rewrite flat_map_map. unfold cross_product, components.
    replace (Nat.min (length (BetaBinomialLikelihood.alpha_v self))
               (Nat.min (length (BetaBinomialLikelihood.beta_v self))
                  (length (Likelihood.log_pi_v (BetaBinomialLikelihood.base self)))))
      with (Nat.min (length (BetaBinomialLikelihood.alpha_v self))
              (length (Likelihood.log_pi_v (BetaBinomialLikelihood.base self))))
      by lia.
    apply flat_map_ext. intros i. rewrite map_map. reflexivity.
  - intros ll [mu_r log_pi_r].
    rewrite (fold_left_append _ (fun q => [term (mu_r, log_pi_r) q])).
    + rewrite flat_map_single. reflexivity.
    + intros ll' [[alpha_v beta_v] log_pi_v]. reflexivity.
Qed.

(** C2.  For an instance built with precision [s] and mesh size [M],
    [alpha_v[j] = s * mu_v[j]] and [beta_v[j] = s - alpha_v[j]], and
    [_log_likelihood phi] is the log-sum-exp over all component pairs of
    [log_pi_r[i] + log_pi_v[j]] plus the log-sum-exp over the [M] mesh
    midpoints [m] of
    [kernel phi mu_r[i] m + log_beta_pdf m alpha_v[j] beta_v[j] + log (1/M)]. *)
Theorem beta_binomial_log_likelihood `{Utils}
    (data_point : DataPoint.t) (M : Z) (s : R)
    (self : BetaBinomialLikelihood.t) (phi : R)
    (Hinit : BetaBinomialLikelihood.__init__ data_point M s = Ok self) :
  let kernel :=
    Likelihood._log_binomial_likelihood (BetaBinomialLikelihood.base self) phi in
  let alpha_v := BetaBinomialLikelihood.alpha_v self in
  let beta_v := BetaBinomialLikelihood.beta_v self in
  let log_pi_r := Likelihood.log_pi_r (BetaBinomialLikelihood.base self) in
  let log_pi_v := Likelihood.log_pi_v (BetaBinomialLikelihood.base self) in
  let n_r := components (DataPoint.mu_r data_point) log_pi_r in
  let n_v := components (DataPoint.mu_v data_point) log_pi_v in
  length alpha_v = length (DataPoint.mu_v data_point)
  /\ length beta_v = length (DataPoint.mu_v data_point)
  /\ (forall j, (j < length (DataPoint.mu_v data_point))%nat ->
        nth j alpha_v 0 = s * nth j (DataPoint.mu_v data_point) 0
        /\ nth j beta_v 0 = s - nth j alpha_v 0)
  /\ BetaBinomialLikelihood._log_likelihood self phi
     = log_sum_exp
         (cross_product n_r n_v
            (fun i j =>
               nth i log_pi_r 0 + nth j log_pi_v 0
               + log_sum_exp
                   (map (fun m =>
                           kernel (nth i (DataPoint.mu_r data_point) 0) m
                           + log_beta_pdf m (nth j alpha_v 0) (nth j beta_v 0)
                           + ln (1 / IZR M))
                        (midpoints (Z.to_nat M)))))
  /\ (well_formed data_point ->
      n_r = length (DataPoint.mu_r data_point)
      /\ n_v = length (DataPoint.mu_v data_point)).
Proof.
  intros kernel alpha_v beta_v log_pi_r log_pi_v n_r n_v.
  destruct (BetaBinomialLikelihood_init_inv _ _ _ _ Hinit)
    as (HM & Hbase & Emr & Ea & Eb & Emesh & Exi).
  destruct (Likelihood_init_inv _ _ Hbase) as (Er & Ev & _).
  assert (La : length alpha_v = length (DataPoint.mu_v data_point)).
  { unfold alpha_v. rewrite Ea, length_map. reflexivity. }
  assert (Lb : length beta_v = length (DataPoint.mu_v data_point)).
  { unfold beta_v. rewrite Eb, length_map. reflexivity. }
  split; [exact La |]. split; [exact Lb |]. split; [| split].
  - intros j Hj. unfold alpha_v, beta_v. rewrite Ea, Eb.
    rewrite (nth_indep (map (fun m => s * m) _) 0 (s * 0))
      by (rewrite length_map; exact Hj).
    rewrite (nth_indep (map (fun m => s - s * m) _) 0 (s - s * 0))
      by (rewrite length_map; exact Hj).
    rewrite (map_nth (fun m => s * m)), (map_nth (fun m => s - s * m)).
    split; reflexivity.
  - rewrite beta_binomial_cross_product
      by (fold alpha_v beta_v; rewrite La, Lb; reflexivity).
    fold alpha_v beta_v log_pi_r log_pi_v. rewrite Emr.
    replace (components alpha_v log_pi_v) with n_v
      by (unfold n_v, components; rewrite La; reflexivity).
    fold n_r. unfold cross_product.
    apply f_equal. apply flat_map_ext. intros i. apply map_ext. intros j.
    rewrite log_beta_binomial_mesh, Emesh, Exi.
    assert (HR : 0 < IZR M) by (apply IZR_lt; lia).
    replace (ln (1 / IZR M)) with (- ln (IZR M))
      by (unfold Rdiv; rewrite Rmult_1_l, ln_Rinv by exact HR; reflexivity).
    reflexivity.
  - intros [Hlr Hlv]. split.
    + exact (proj2 (components_well_formed _ _ _ Er) Hlr).
    + exact (proj2 (components_well_formed _ _ _ Ev) Hlv).
Qed.

Lemma sample_beta_binomial_init :
  BetaBinomialLikelihood.__init__ (H := textbook_utils) sample_point 4 100
  = Ok sample_beta_binomial.
Proof.
  unfold BetaBinomialLikelihood.__init__. rewrite sample_init. cbn [bind].
  rewrite set_beta_params_map, set_mesh_pos by lia. reflexivity.
Qed.

Lemma beta_binomial_log_likelihood_witness :
  nth 0 (BetaBinomialLikelihood.alpha_v sample_beta_binomial) 0 = 100 * (1 / 2)
  /\ nth 0 (BetaBinomialLikelihood.beta_v sample_beta_binomial) 0
     = 100 - nth 0 (BetaBinomialLikelihood.alpha_v sample_beta_binomial) 0.
Proof.
  exact (proj1 (proj2 (proj2
           (beta_binomial_log_likelihood (H := textbook_utils)
              sample_point 4 100 sample_beta_binomial (1 / 2)
              sample_beta_binomial_init)))
           0%nat (Nat.lt_0_1)).
Defined.

(** C10.  Every mesh of a constructed [BetaBinomialLikelihood] has
    [M >= 1] points [(2 i + 1) / (2 M)], all strictly inside [(0, 1)] and
    strictly increasing; [_log_beta_binomial_likelihood] therefore never
    consults [log_beta_pdf] at [0] or [1]: changing the density anywhere
    outside the open interval leaves its result unchanged. *)
Theorem mesh_interior (U : Utils)
    (data_point : DataPoint.t) (M : Z) (s : R) (self : BetaBinomialLikelihood.t)
    (Hinit : BetaBinomialLikelihood.__init__ (H := U) data_point M s = Ok self) :
  (1 <= M)%Z
  /\ BetaBinomialLikelihood._mesh self = midpoints (Z.to_nat M)
  /\ length (BetaBinomialLikelihood._mesh self) = Z.to_nat M
  /\ Forall (fun m => 0 < m < 1) (BetaBinomialLikelihood._mesh self)
  /\ strictly_increasing (BetaBinomialLikelihood._mesh self)
  /\ forall pdf : R -> R -> R -> R,
       (forall m alpha_v beta_v,
          0 < m < 1 -> pdf m alpha_v beta_v = log_beta_pdf m alpha_v beta_v) ->
       forall phi mu_r alpha_v beta_v,
         BetaBinomialLikelihood._log_beta_binomial_likelihood
           (H := with_log_beta_pdf U pdf) self phi mu_r alpha_v beta_v
         = BetaBinomialLikelihood._log_beta_binomial_likelihood
             (H := U) self phi mu_r alpha_v beta_v.
Proof.
  destruct (BetaBinomialLikelihood_init_inv _ _ _ _ Hinit)
    as (HM & _ & _ & _ & _ & Emesh & _).
  split; [exact HM |]. split; [exact Emesh |]. rewrite Emesh.
  split; [apply midpoints_length |].
  split; [apply midpoints_interior |].
  split; [apply midpoints_increasing |].
  intros pdf Hpdf phi mu_r alpha_v beta_v.
  rewrite !log_beta_binomial_mesh, Emesh. f_equal.
  apply map_ext_in. intros m Hm.
  pose proof (midpoints_interior (Z.to_nat M)) as Hint.
  rewrite Forall_forall in Hint. specialize (Hint m Hm).
  simpl. rewrite (Hpdf _ _ _ Hint). reflexivity.
Qed.

Lemma mesh_interior_witness :
  Forall (fun m => 0 < m < 1) (midpoints 4)
  /\ strictly_increasing (midpoints 4).
Proof.
  pose proof (mesh_interior textbook_utils sample_point 4 100
                sample_beta_binomial sample_beta_binomial_init) as W.
  exact (conj (proj1 (proj2 (proj2 (proj2 W))))
              (proj1 (proj2 (proj2 (proj2 (proj2 W)))))).
Defined.

(** ** The ordered dictionary *)

Lemma key_eqb_refl (k : R) : OrderedDict.key_eqb k k = true.
Proof. unfold OrderedDict.key_eqb. destruct (Req_dec_T k k); [reflexivity | contradiction]. Qed.

Lemma key_eqb_neq (k k' : R) : k <> k' -> OrderedDict.key_eqb k k' = false.
Proof. unfold OrderedDict.key_eqb. destruct (Req_dec_T k k'); [contradiction | reflexivity]. Qed.

Lemma get_In (c : OrderedDict.t) (k v : R) :
  OrderedDict.get c k = Some v -> In (k, v) c.
Proof.
  induction c as [| [k' v'] c IH]; simpl; [discriminate |].
  unfold OrderedDict.key_eqb. destruct (Req_dec_T k k') as [<- | Hne].
  - intros [= <-]. left. reflexivity.
  - intros Hget. right. exact (IH Hget).
Qed.

Lemma get_None (c : OrderedDict.t) (k : R) :
  OrderedDict.get c k = None <-> ~ In k (OrderedDict.keys c).
Proof.
  induction c as [| [k' v'] c IH]; simpl.
  - split; [intros _ [] | reflexivity].
  - unfold OrderedDict.key_eqb. destruct (Req_dec_T k k') as [<- | Hne].
    + split; [discriminate | intros Hn; exfalso; apply Hn; left; reflexivity].
    + rewrite IH. split.
      * intros Hn [He | Hin]; [congruence | contradiction].
      * intros Hn Hin. apply Hn. right. exact Hin.
Qed.

Lemma get_app_new (c : OrderedDict.t) (k v : R) :
  OrderedDict.get c k = None -> OrderedDict.get (c ++ [(k, v)]) k = Some v.
Proof.
  induction c as [| [k' v'] c IH]; simpl.
  - rewrite key_eqb_refl. reflexivity.
  - destruct (OrderedDict.key_eqb k k'); [discriminate | exact IH].
Qed.

Lemma setitem_new (c : OrderedDict.t) (k v : R) :
  OrderedDict.get c k = None -> OrderedDict.setitem c k v = c ++ [(k, v)].
Proof.
  induction c as [| [k' v'] c IH]; simpl; [reflexivity |].
  destruct (OrderedDict.key_eqb k k'); [discriminate |].
  intros Hget. rewrite (IH Hget). reflexivity.
Qed.

Lemma get_tl_new (c : OrderedDict.t) (k v : R) :
  c <> [] -> OrderedDict.get c k = None ->
  OrderedDict.get (tl (c ++ [(k, v)])) k = Some v.
Proof.
  destruct c as [| [k' v'] c]; [contradiction |]. intros _. simpl.
  destruct (OrderedDict.key_eqb k k'); [discriminate |]. apply get_app_new.
Qed.

Lemma popitem_first_nonempty (c : OrderedDict.t) :
  c <> [] -> exists e, OrderedDict.popitem_first c = Ok (e, tl c).
Proof. destruct c as [| e c]; [contradiction |]. intros _. exists e. reflexivity. Qed.

(** ** One memoised call *)

Lemma Likelihood_compute_hit (f : R -> result R) (self : Likelihood.t) (phi v : R) :
  OrderedDict.get (Likelihood._ll_cache self) phi = Some v ->
  Likelihood.compute_log_likelihood f self phi = (Ok v, self, 0%nat).
Proof.
  intros Hget. unfold Likelihood.compute_log_likelihood, OrderedDict.contains,
    OrderedDict.getitem. rewrite Hget. reflexivity.
Qed.

Lemma Likelihood_compute_raise (f : R -> result R) (self : Likelihood.t) (phi : R) (e : exn) :
  OrderedDict.get (Likelihood._ll_cache self) phi = None ->
  f phi = Raise e ->
  Likelihood.compute_log_likelihood f self phi = (Raise e, self, 1%nat).
Proof.
  intros Hget Hf. unfold Likelihood.compute_log_likelihood, OrderedDict.contains.
  rewrite Hget, Hf. reflexivity.
Qed.

Lemma Likelihood_compute_miss (f : R -> result R) (self : Likelihood.t) (phi v : R) :
  OrderedDict.get (Likelihood._ll_cache self) phi = None ->
  f phi = Ok v ->
  Likelihood.compute_log_likelihood f self phi
  = (Ok v,
     Likelihood.with_cache self (next_cache (Likelihood._ll_cache self) phi v),
     1%nat).
Proof.
  intros Hget Hf. unfold Likelihood.compute_log_likelihood, OrderedDict.contains.
  rewrite Hget, Hf. cbn [negb]. rewrite (setitem_new _ _ _ Hget).
  unfold next_cache, OrderedDict.len. rewrite length_app. simpl length.
  destruct (1000 <=? length (Likelihood._ll_cache self))%nat eqn:Efull.
  - apply Nat.leb_le in Efull.
    destruct (Z.of_nat (length (Likelihood._ll_cache self) + 1) >? 1000)%Z eqn:Ez;
      [| rewrite Z.gtb_ltb in Ez; apply Z.ltb_ge in Ez; lia].
    assert (Hne : Likelihood._ll_cache self <> []).
    { intros E. rewrite E in Efull. simpl in Efull. lia. }
    destruct (popitem_first_nonempty (Likelihood._ll_cache self ++ [(phi, v)]))
      as [e0 He0]; [intros E; apply app_eq_nil in E; destruct E; discriminate |].
    rewrite He0. unfold OrderedDict.getitem.
    rewrite (get_tl_new _ _ _ Hne Hget). reflexivity.
  - apply Nat.leb_gt in Efull.
    destruct (Z.of_nat (length (Likelihood._ll_cache self) + 1) >? 1000)%Z eqn:Ez;
      [rewrite Z.gtb_ltb in Ez; apply Z.ltb_lt in Ez; lia |].
    unfold OrderedDict.getitem. rewrite (get_app_new _ _ _ Hget). reflexivity.
Qed.

(** ** Memoised calls on an instance *)

Lemma set_cache_same (self : instance) : set_cache self (cache_of self) = self.
Proof. destruct self as [[] | [[] ? ?] | [[] ? ? ? ? ?]]; reflexivity. Qed.

Lemma cache_of_set_cache (self : instance) (c : OrderedDict.t) :
  cache_of (set_cache self c) = c.
Proof. destruct self; reflexivity. Qed.

Lemma set_cache_twice (self : instance) (c c' : OrderedDict.t) :
  set_cache (set_cache self c) c' = set_cache self c'.
Proof. destruct self; reflexivity. Qed.

(** The kernel reads none of the cache. *)
Lemma log_likelihood_set_cache `{Utils} (self : instance) (c : OrderedDict.t) (phi : R) :
  _log_likelihood (set_cache self c) phi = _log_likelihood self phi.
Proof. destruct self; reflexivity. Qed.

Lemma with_base_same (self : instance) : with_base self (base_of self) = self.
Proof. destruct self as [[] | [[] ? ?] | [[] ? ? ? ? ?]]; reflexivity. Qed.

Lemma compute_hit `{Utils} (self : instance) (phi v : R) :
  OrderedDict.get (cache_of self) phi = Some v ->
  compute_log_likelihood self phi = (Ok v, self, 0%nat).
Proof.
  intros Hget. unfold compute_log_likelihood.
  rewrite (Likelihood_compute_hit _ _ _ _ Hget), with_base_same. reflexivity.
Qed.

Lemma compute_raise `{Utils} (self : instance) (phi : R) (e : exn) :
  OrderedDict.get (cache_of self) phi = None ->
  _log_likelihood self phi = Raise e ->
  compute_log_likelihood self phi = (Raise e, self, 1%nat).
Proof.
  intros Hget Hf. unfold compute_log_likelihood.
  rewrite (Likelihood_compute_raise _ _ _ _ Hget Hf), with_base_same. reflexivity.
Qed.

Lemma compute_miss `{Utils} (self : instance) (phi v : R) :
  OrderedDict.get (cache_of self) phi = None ->
  _log_likelihood self phi = Ok v ->
  compute_log_likelihood self phi
  = (Ok v, set_cache self (next_cache (cache_of self) phi v), 1%nat).
Proof.
  intros Hget Hf. unfold compute_log_likelihood.
  rewrite (Likelihood_compute_miss _ _ _ _ Hget Hf). reflexivity.
Qed.

(** The three ways a call can go. *)
Lemma compute_cases `{Utils} (self : instance) (phi : R) :
  (exists v, OrderedDict.get (cache_of self) phi = Some v
             /\ compute_log_likelihood self phi = (Ok v, self, 0%nat))
  \/ (exists e, OrderedDict.get (cache_of self) phi = None
                /\ _log_likelihood self phi = Raise e
                /\ compute_log_likelihood self phi = (Raise e, self, 1%nat))
  \/ (exists v, OrderedDict.get (cache_of self) phi = None
                /\ _log_likelihood self phi = Ok v
                /\ compute_log_likelihood self phi
                   = (Ok v, set_cache self (next_cache (cache_of self) phi v), 1%nat)).
Proof.
  destruct (OrderedDict.get (cache_of self) phi) as [v |] eqn:Hget.
  - left. exists v. split; [reflexivity | apply compute_hit, Hget].
  - right. destruct (_log_likelihood self phi) as [v | e] eqn:Hf.
    + right. exists v. repeat split; try reflexivity. apply compute_miss; assumption.
    + left. exists e. repeat split; try reflexivity. apply compute_raise; assumption.
Qed.

Lemma next_cache_length (c : OrderedDict.t) (phi v : R) :
  (length c <= 1000)%nat -> (length (next_cache c phi v) <= 1000)%nat.
Proof.
  intros Hc. unfold next_cache.
  destruct (1000 <=? length c)%nat eqn:Efull.
  - apply Nat.leb_le in Efull. destruct c as [| e c]; simpl in *; [lia |].
    rewrite length_app. simpl. lia.
  - apply Nat.leb_gt in Efull. rewrite length_app. simpl. lia.
Qed.

Lemma next_cache_consistent (f : R -> result R) (c : OrderedDict.t) (phi v : R) :
  consistent f c -> f phi = Ok v -> consistent f (next_cache c phi v).
Proof.
  intros Hc Hf k w Hin.
  assert (Hin' : In (k, w) (c ++ [(phi, v)])).
  { unfold next_cache in Hin. destruct (1000 <=? length c)%nat; [| exact Hin].
    destruct (c ++ [(phi, v)]) as [| e l]; [contradiction | right; exact Hin]. }
  apply in_app_or in Hin'. destruct Hin' as [Hin' | [[= <- <-] | []]].
  - exact (Hc _ _ Hin').
  - exact Hf.
Qed.

(** What every call preserves: the instance apart from its cache, the
    bound on the cache, and the agreement of the cache with the kernel. *)
Lemma compute_preserves `{Utils} (self : instance) (phi : R) :
  (length (cache_of self) <= 1000)%nat ->
  consistent (_log_likelihood self) (cache_of self) ->
  let self' := state_of (compute_log_likelihood self phi) in
  self' = set_cache self (cache_of self')
  /\ (length (cache_of self') <= 1000)%nat
  /\ consistent (_log_likelihood self) (cache_of self').
Proof.
  intros Hlen Hcons.
  destruct (compute_cases self phi)
    as [(v & _ & E) | [(e & _ & _ & E) | (v & _ & Hf & E)]];
    rewrite E; unfold state_of; simpl.
  - rewrite set_cache_same. auto.
  - rewrite set_cache_same. auto.
  - rewrite cache_of_set_cache. split; [reflexivity |].
    split; [apply next_cache_length, Hlen | apply next_cache_consistent; assumption].
Qed.

Lemma after_calls_snoc `{Utils} (self : instance) (phis : list R) (phi : R) :
  after_calls self (phis ++ [phi])
  = state_of (compute_log_likelihood (after_calls self phis) phi).
Proof. unfold after_calls. rewrite fold_left_app. reflexivity. Qed.

Lemma after_calls_preserves `{Utils} (fresh : instance) (phis : list R) :
  cache_of fresh = OrderedDict.empty ->
  let self := after_calls fresh phis in
  self = set_cache fresh (cache_of self)
  /\ (length (cache_of self) <= 1000)%nat
  /\ consistent (_log_likelihood fresh) (cache_of self).
Proof.
  intros Hfresh. induction phis as [| phi phis IH] using rev_ind.
  - simpl. rewrite set_cache_same, Hfresh. split; [reflexivity |].
    split; [simpl; lia | intros k v []].
  - cbv zeta. rewrite after_calls_snoc.
    destruct IH as (Eself & Hlen & Hcons).
    set (self := after_calls fresh phis) in *.
    assert (Hk : forall x, _log_likelihood self x = _log_likelihood fresh x).
    { intros x. rewrite Eself. apply log_likelihood_set_cache. }
    assert (Hcons' : consistent (_log_likelihood self) (cache_of self)).
    { intros k v Hin. rewrite Hk. exact (Hcons _ _ Hin). }
    destruct (compute_preserves self phi Hlen Hcons') as (E' & Hlen' & Hc').
    split; [| split].
    + rewrite E' at 1. rewrite Eself at 1. apply set_cache_twice.
    + exact Hlen'.
    + intros k v Hin. rewrite <- Hk. exact (Hc' _ _ Hin).
Qed.

Lemma after_calls_kernel `{Utils} (fresh : instance) (phis : list R) (phi : R) :
  cache_of fresh = OrderedDict.empty ->
  _log_likelihood (after_calls fresh phis) phi = _log_likelihood fresh phi.
Proof.
  intros Hfresh. destruct (after_calls_preserves fresh phis Hfresh) as (E & _ & _).
  rewrite E. apply log_likelihood_set_cache.
Qed.

(** The memoised path returns what the kernel computes. *)
Lemma compute_value `{Utils} (self : instance) (phi : R) :
  consistent (_log_likelihood self) (cache_of self) ->
  value_of (compute_log_likelihood self phi) = _log_likelihood self phi.
Proof.
  intros Hcons.
  destruct (compute_cases self phi)
    as [(v & Hget & E) | [(e & _ & Hf & E) | (v & _ & Hf & E)]];
    rewrite E; unfold value_of; simpl.
  - symmetry. apply Hcons, get_In, Hget.
  - symmetry. exact Hf.
  - symmetry. exact Hf.
Qed.

(** ** Which keys stay cached *)

Lemma tl_skipn {A : Type} (k : nat) (l : list A) : tl (skipn k l) = skipn (S k) l.
Proof.
  revert l. induction k as [| k IH]; intros [| x l]; try reflexivity.
  simpl. rewrite IH. destruct l; reflexivity.
Qed.

Lemma keys_next_cache (c : OrderedDict.t) (phi v : R) :
  OrderedDict.keys (next_cache c phi v)
  = if (1000 <=? length c)%nat then tl (OrderedDict.keys c ++ [phi])
    else OrderedDict.keys c ++ [phi].
Proof.
  unfold next_cache, OrderedDict.keys.
  destruct (1000 <=? length c)%nat.
  - change [phi] with (map fst [(phi, v)]). rewrite <- map_app.
    destruct (c ++ [(phi, v)]); reflexivity.
  - rewrite map_app. reflexivity.
Qed.

Lemma keys_after_distinct `{Utils} (fresh : instance) (phis : list R) :
  cache_of fresh = OrderedDict.empty ->
  NoDup phis ->
  (forall phi, In phi phis -> exists v, _log_likelihood fresh phi = Ok v) ->
  OrderedDict.keys (cache_of (after_calls fresh phis))
  = skipn (length phis - 1000) phis.
Proof.
  intros Hfresh. induction phis as [| phi phis IH] using rev_ind; intros Hnd Hok.
  - simpl. rewrite Hfresh. reflexivity.
  - assert (Hnd' : NoDup phis).
    { apply NoDup_remove_1 in Hnd. rewrite app_nil_r in Hnd. exact Hnd. }
    assert (Hnew : ~ In phi phis).
    { apply NoDup_remove_2 in Hnd. rewrite app_nil_r in Hnd. exact Hnd. }
    specialize (IH Hnd' (fun x Hx => Hok x (in_or_app _ _ _ (or_introl Hx)))).
    destruct (Hok phi) as [v Hv]; [apply in_or_app; right; left; reflexivity |].
    rewrite after_calls_snoc.
    set (self := after_calls fresh phis) in *.
    assert (Hget : OrderedDict.get (cache_of self) phi = None).
    { apply get_None. rewrite IH. intros Hin. apply Hnew.
      rewrite <- (firstn_skipn (length phis - 1000) phis).
      apply in_or_app. right. exact Hin. }
    assert (Hf : _log_likelihood self phi = Ok v).
    { unfold self. rewrite after_calls_kernel by exact Hfresh. exact Hv. }
    rewrite (compute_miss self phi v Hget Hf). unfold state_of. simpl.
    rewrite cache_of_set_cache, keys_next_cache.
    assert (Hlen : length (cache_of self) = (length phis - (length phis - 1000))%nat).
    { rewrite <- (length_map fst (cache_of self)).
      change (map fst (cache_of self)) with (OrderedDict.keys (cache_of self)).
      rewrite IH. apply length_skipn. }
    rewrite IH, length_app. simpl length.
    destruct (1000 <=? length (cache_of self))%nat eqn:Efull.
    + apply Nat.leb_le in Efull.
      rewrite skipn_app.
      replace (length phis + 1 - 1000 - length phis)%nat with 0%nat by lia.
      simpl skipn at 3.
      replace (length phis + 1 - 1000)%nat with (S (length phis - 1000)) by lia.
      rewrite <- tl_skipn.
      destruct (skipn (length phis - 1000) phis) as [| x l] eqn:Esk; [| reflexivity].
      exfalso. apply (f_equal (@length R)) in Esk. rewrite length_skipn in Esk.
      simpl in Esk. lia.
    + apply Nat.leb_gt in Efull.
      replace (length phis - 1000)%nat with 0%nat by lia.
      replace (length phis + 1 - 1000)%nat with 0%nat by lia. reflexivity.
Qed.

Lemma not_abstract_total `{Utils} (self : instance) (phi : R) :
  (forall l, self <> OfLikelihood l) -> exists v, _log_likelihood self phi = Ok v.
Proof.
  destruct self as [l | b | b]; intros Hna.
  - exfalso. exact (Hna l eq_refl).
  - eexists. reflexivity.
  - eexists. reflexivity.
Qed.

Lemma abstract_after_calls `{Utils} (l : Likelihood.t) (phis : list R) :
  Likelihood._ll_cache l = OrderedDict.empty ->
  after_calls (OfLikelihood l) phis = OfLikelihood l.
Proof.
  intros Hfresh. induction phis as [| phi phis IH] using rev_ind; [reflexivity |].
  rewrite after_calls_snoc, IH.
  rewrite (compute_raise (OfLikelihood l) phi TypeError); [reflexivity | | reflexivity].
  unfold cache_of. simpl. rewrite Hfresh. reflexivity.
Qed.

Lemma get_next_cache (c : OrderedDict.t) (phi v : R) :
  OrderedDict.get c phi = None ->
  OrderedDict.get (next_cache c phi v) phi = Some v.
Proof.
  intros Hget. unfold next_cache. destruct (1000 <=? length c)%nat eqn:Efull.
  - apply get_tl_new; [| exact Hget]. intros ->. discriminate.
  - apply get_app_new, Hget.
Qed.

(** ** The memo cache: the claims *)

(** C7.  Whatever calls were made on an instance, its cache holds at most
    1000 entries; a call that inserts a new key appends it and, when the
    cache was full, drops exactly the oldest entry; after 1001 distinct keys
    the first one is no longer cached. *)
Theorem cache_bounded `{Utils} (fresh : instance) (phis : list R)
    (Hfresh : cache_of fresh = OrderedDict.empty) :
  let self := after_calls fresh phis in
  (length (cache_of self) <= 1000)%nat
  /\ (forall phi v,
        OrderedDict.get (cache_of self) phi = None ->
        _log_likelihood self phi = Ok v ->
        let self' := state_of (compute_log_likelihood self phi) in
        ((length (cache_of self) < 1000)%nat ->
         cache_of self' = cache_of self ++ [(phi, v)])
        /\ (length (cache_of self) = 1000%nat ->
            cache_of self' = tl (cache_of self) ++ [(phi, v)]))
  /\ (NoDup phis -> length phis = 1001%nat ->
      ~ In (hd 0 phis) (OrderedDict.keys (cache_of self))
      /\ ((forall l, fresh <> OfLikelihood l) ->
          OrderedDict.keys (cache_of self) = tl phis)).
Proof.
  intros self.
  destruct (after_calls_preserves fresh phis Hfresh) as (_ & Hlen & _).
  split; [exact Hlen |]. split.
  - intros phi v Hget Hf self'. unfold self'.
    rewrite (compute_miss self phi v Hget Hf). unfold state_of. simpl.
    rewrite cache_of_set_cache. unfold next_cache. split; intros Hc.
    + destruct (1000 <=? length (cache_of self))%nat eqn:E; [| reflexivity].
      apply Nat.leb_le in E. lia.
    + rewrite Hc. simpl. destruct (cache_of self); [discriminate | reflexivity].
  - intros Hnd Hn.
    assert (Htotal : (forall l, fresh <> OfLikelihood l) ->
                     OrderedDict.keys (cache_of self) = tl phis).
    { intros Hna. unfold self. rewrite keys_after_distinct.
      - rewrite Hn. change (1001 - 1000)%nat with 1%nat.
        destruct phis; reflexivity.
      - exact Hfresh.
      - exact Hnd.
      - intros phi _. apply not_abstract_total, Hna. }
    split; [| exact Htotal].
    destruct fresh as [l | b | b] eqn:Ef.
    + unfold self. rewrite abstract_after_calls by exact Hfresh.
      unfold cache_of in *. simpl in *. rewrite Hfresh. intros [].
    + rewrite Htotal by discriminate.
      destruct phis as [| x rest]; [discriminate |]. simpl.
      inversion Hnd; assumption.
    + rewrite Htotal by discriminate.
      destruct phis as [| x rest]; [discriminate |]. simpl.
      inversion Hnd; assumption.
Qed.

Lemma INR_seq_NoDup (n : nat) : NoDup (map INR (seq 0 n)).
Proof.
  assert (G : forall l, NoDup l -> NoDup (map INR l)).
  { induction 1 as [| x l Hx _ IH]; simpl; constructor; [| exact IH].
    intros Hin. apply in_map_iff in Hin. destruct Hin as (y & Ey & Hy).
    apply INR_eq in Ey. subst y. contradiction. }
  apply G, seq_NoDup.
Qed.

Lemma cache_bounded_witness :
  (length (cache_of (after_calls (H := textbook_utils)
                       (OfBinomial sample_binomial) (map INR (seq 0 1001))))
   <= 1000)%nat
  /\ ~ In (INR 0)
         (OrderedDict.keys
            (cache_of (after_calls (H := textbook_utils)
                         (OfBinomial sample_binomial) (map INR (seq 0 1001))))).
Proof.
  pose proof (cache_bounded (H := textbook_utils) (OfBinomial sample_binomial)
                (map INR (seq 0 1001)) eq_refl) as W.
  split; [exact (proj1 W) |].
  refine (proj1 (proj2 (proj2 W) (INR_seq_NoDup 1001) _)).
  rewrite length_map, length_seq. reflexivity.
Defined.

(** C8.  In every state of an instance, [compute_log_likelihood phi] returns
    what [_log_likelihood phi] computes; calling it again with the same [phi]
    returns the same value without evaluating the kernel again; and two
    different values of [phi] get two cache entries. *)
Theorem memoized_equals_kernel `{Utils} (fresh : instance) (phis : list R) (phi : R)
    (Hfresh : cache_of fresh = OrderedDict.empty) :
  let self := after_calls fresh phis in
  let first := compute_log_likelihood self phi in
  let second := compute_log_likelihood (state_of first) phi in
  value_of first = _log_likelihood self phi
  /\ value_of second = value_of first
  /\ (forall v, value_of first = Ok v ->
        evaluations_of second = 0%nat
        /\ (evaluations_of first + evaluations_of second <= 1)%nat)
  /\ (forall phi' v v',
        phi <> phi' ->
        _log_likelihood fresh phi = Ok v ->
        _log_likelihood fresh phi' = Ok v' ->
        cache_of (after_calls fresh [phi; phi']) = [(phi, v); (phi', v')]).
Proof.
  intros self first second.
  destruct (after_calls_preserves fresh phis Hfresh) as (Eself & _ & Hcons).
  fold self in Eself, Hcons.
  assert (Hcons' : consistent (_log_likelihood self) (cache_of self)).
  { intros k v Hin. rewrite Eself, log_likelihood_set_cache. exact (Hcons _ _ Hin). }
  split; [apply compute_value, Hcons' |].
  assert (Hrepeat : value_of second = value_of first
                    /\ forall v, value_of first = Ok v ->
                         evaluations_of second = 0%nat
                         /\ (evaluations_of first + evaluations_of second <= 1)%nat).
  { unfold second, first.
    destruct (compute_cases self phi)
      as [(v & Hget & E) | [(e & Hget & Hf & E) | (v & Hget & Hf & E)]];
      rewrite E; unfold state_of, value_of, evaluations_of; simpl.
    - rewrite E. simpl. split; [reflexivity |]. intros _ _. split; lia.
    - rewrite E. simpl. split; [reflexivity |]. intros w [=].
    - rewrite (compute_hit _ phi v).
      + simpl. split; [reflexivity |]. intros _ _. split; lia.
      + rewrite cache_of_set_cache. apply get_next_cache, Hget. }
  split; [apply Hrepeat |]. split; [apply Hrepeat |].
  intros phi' v v' Hne Hv Hv'. unfold after_calls. simpl.
  assert (E1 : compute_log_likelihood fresh phi
               = (Ok v, set_cache fresh [(phi, v)], 1%nat)).
  { rewrite (compute_miss fresh phi v); [| rewrite Hfresh; reflexivity | exact Hv].
    rewrite Hfresh. reflexivity. }
  rewrite E1. simpl.
  rewrite (compute_miss _ phi' v').
  - simpl. rewrite !cache_of_set_cache. reflexivity.
  - rewrite cache_of_set_cache. simpl.
    rewrite key_eqb_neq by congruence. reflexivity.
  - rewrite log_likelihood_set_cache. exact Hv'.
Qed.

Lemma memoized_equals_kernel_witness :
  value_of (compute_log_likelihood (H := textbook_utils)
              (after_calls (H := textbook_utils) (OfBinomial sample_binomial) [1 / 2])
              (1 / 4))
  = _log_likelihood (H := textbook_utils)
      (after_calls (H := textbook_utils) (OfBinomial sample_binomial) [1 / 2])
      (1 / 4).
Proof.
  exact (proj1 (memoized_equals_kernel (H := textbook_utils)
                  (OfBinomial sample_binomial) [1 / 2] (1 / 4) eq_refl)).
Defined.

(** C9.  The kernel of the abstract base never returns: it fails with the
    [TypeError] of [raise NotImplemented], and nothing catches it, so every
    [compute_log_likelihood] on a base instance fails in the same way and
    leaves the instance as it was. *)
Theorem abstract_kernel_raises `{Utils} (self : Likelihood.t) (phis : list R) (phi : R)
    (Hfresh : Likelihood._ll_cache self = OrderedDict.empty) :
  Likelihood._log_likelihood self phi = Raise TypeError
  /\ _log_likelihood (OfLikelihood self) phi = Raise TypeError
  /\ (let call := compute_log_likelihood (after_calls (OfLikelihood self) phis) phi in
      value_of call = Raise TypeError /\ state_of call = OfLikelihood self).
Proof.
  split; [reflexivity |]. split; [reflexivity |].
  cbv zeta. rewrite abstract_after_calls by exact Hfresh.
  rewrite (compute_raise (OfLikelihood self) phi TypeError).
  - split; reflexivity.
  - unfold cache_of. simpl. rewrite Hfresh. reflexivity.
  - reflexivity.
Qed.

Lemma abstract_kernel_raises_witness :
  value_of (compute_log_likelihood (H := textbook_utils)
              (after_calls (H := textbook_utils) (OfLikelihood sample_base) [1 / 2; 1 / 4])
              (1 / 2))
  = Raise TypeError.
Proof.
  exact (proj1 (proj2 (proj2
           (abstract_kernel_raises (H := textbook_utils) sample_base
              [1 / 2; 1 / 4] (1 / 2) eq_refl)))).
Defined.

(** ** The posterior: bin centres *)

Lemma combine_map_same {A B C : Type} (f : A -> B) (g : A -> C) (l : list A) :
  combine (map f l) (map g l) = map (fun x => (f x, g x)) l.
Proof. induction l as [| x l IH]; simpl; [| rewrite IH]; reflexivity. Qed.

Lemma map_fst_combine {A B : Type} (la : list A) (lb : list B) :
  length la = length lb -> map fst (combine la lb) = la.
Proof.
  revert lb. induction la as [| x la IH]; intros [| y lb] Hlen; try discriminate;
    [reflexivity |].
  simpl. rewrite IH by (simpl in Hlen; lia). reflexivity.
Qed.

Lemma map_snd_combine {A B : Type} (la : list A) (lb : list B) :
  length la = length lb -> map snd (combine la lb) = lb.
Proof.
  revert lb. induction la as [| x la IH]; intros [| y lb] Hlen; try discriminate;
    [reflexivity |].
  simpl. rewrite IH by (simpl in Hlen; lia). reflexivity.
Qed.

Lemma bin_centres_loop (N : Z) (bin_width : R) :
  (0 <= N)%Z ->
  fold_left
    (fun bin_centres '(left_, right_) => bin_centres ++ [(left_ + right_) / 2])
    (combine
       (Py.but_last (map (fun x => IZR x * bin_width) (Py.range (N + 1))))
       (Py.from_1 (map (fun x => IZR x * bin_width) (Py.range (N + 1)))))
    []
  = map (fun i => (INR i * bin_width + INR (S i) * bin_width) / 2)
        (seq 0 (Z.to_nat N)).
Proof.
  intros HN. set (n := Z.to_nat N).
  replace (N + 1)%Z with (Z.of_nat (S n)) by lia.
  rewrite range_of_nat, map_map.
  rewrite (map_ext _ (fun k => INR k * bin_width))
    by (intros k; rewrite <- INR_IZR_INZ; reflexivity).
  unfold Py.but_last, Py.from_1.
  assert (E1 : removelast (map (fun k => INR k * bin_width) (seq 0 (S n)))
               = map (fun k => INR k * bin_width) (seq 0 n)).
  { rewrite seq_S, map_app. simpl. apply removelast_last. }
  assert (E2 : tl (map (fun k => INR k * bin_width) (seq 0 (S n)))
               = map (fun k => INR (S k) * bin_width) (seq 0 n)).
  { simpl. rewrite <- seq_shift, map_map. reflexivity. }
  rewrite E1, E2, combine_map_same.
  rewrite (fold_left_append _ (fun p : R * R => [(fst p + snd p) / 2])).
  - simpl. rewrite flat_map_single, map_map. reflexivity.
  - intros ll [l r]. reflexivity.
Qed.

Lemma bin_centers_length (N : nat) : length (bin_centers N) = N.
Proof. unfold bin_centers. rewrite length_map, length_seq. reflexivity. Qed.

Lemma bin_centers_increasing (N : nat) : strictly_increasing (bin_centers N).
Proof.
  intros i j Hij Hj. rewrite bin_centers_length in Hj.
  assert (G : forall k, (k < N)%nat ->
              nth k (bin_centers N) 0 = (INR k + 1 / 2) / INR N).
  { intros k Hk. unfold bin_centers.
    rewrite (nth_indep _ 0 ((INR 0 + 1 / 2) / INR N))
      by (rewrite length_map, length_seq; exact Hk).
    rewrite (map_nth (fun i => (INR i + 1 / 2) / INR N) (seq 0 N) 0%nat k).
    rewrite seq_nth by exact Hk. reflexivity. }
  rewrite !G by lia.
  assert (HN : 0 < INR N) by (apply lt_0_INR; lia).
  assert (INR i < INR j) by (apply lt_INR; exact Hij).
  unfold Rdiv at 1 3. apply Rmult_lt_compat_r; [apply Rinv_0_lt_compat; lra | lra].
Qed.

(** ** The posterior: normalisation *)

Lemma py_sum_exp_pos (l : list R) : l <> [] -> 0 < Py.sum (map exp l).
Proof.
  intros Hne. apply py_sum_pos.
  - destruct l; [contradiction | discriminate].
  - apply Forall_forall. intros y Hy. apply in_map_iff in Hy.
    destruct Hy as (x & <- & _). apply exp_pos.
Qed.

Lemma normalised_density (ll : list R) (bin_width : R) :
  ll <> [] -> 0 < bin_width ->
  let norm_const := log_sum_exp (map (fun x => x + ln bin_width) ll) in
  Py.sum (map (fun x => exp (x - norm_const) * bin_width) ll) = 1.
Proof.
  intros Hne Hbw norm_const.
  pose proof (py_sum_exp_pos ll Hne) as HS.
  assert (En : exp norm_const = Py.sum (map exp ll) * bin_width).
  { unfold norm_const, log_sum_exp. rewrite map_map.
    rewrite (map_ext _ (fun x => exp x * bin_width))
      by (intros x; rewrite exp_plus, exp_ln by exact Hbw; reflexivity).
    rewrite py_sum_scale. apply exp_ln. apply Rmult_lt_0_compat; assumption. }
  rewrite (map_ext _ (fun x => exp x * (bin_width / exp norm_const))).
  - rewrite py_sum_scale, En. field. lra.
  - intros x. unfold Rminus. rewrite exp_plus, exp_Ropp. field.
    rewrite En. apply Rgt_not_eq. apply Rmult_lt_0_compat; assumption.
Qed.

(** ** The posterior: evaluating the likelihood at every centre *)

Lemma likelihood_loop `{Utils} (lk : BinomialLikelihood.t) :
  forall phis s acc,
  s = set_cache (OfBinomial lk) (cache_of s) ->
  (length (cache_of s) <= 1000)%nat ->
  consistent (_log_likelihood (OfBinomial lk)) (cache_of s) ->
  exists s',
    for_each phis
      (fun '(likelihood, ll) phi =>
         let '(r, likelihood, _) := compute_log_likelihood likelihood phi in
         v <- r ;; Ok (likelihood, ll ++ [v]))
      (s, acc)
    = Ok (s', acc ++ map (BinomialLikelihood._log_likelihood lk) phis).
Proof.
  induction phis as [| phi phis IH]; intros s acc Es Hlen Hcons.
  - exists s. simpl. rewrite app_nil_r. reflexivity.
  - assert (Hk : forall x, _log_likelihood s x = _log_likelihood (OfBinomial lk) x).
    { intros x. rewrite Es. apply log_likelihood_set_cache. }
    assert (Hcons' : consistent (_log_likelihood s) (cache_of s)).
    { intros k v Hin. rewrite Hk. exact (Hcons _ _ Hin). }
    pose proof (compute_value s phi Hcons') as Hval.
    destruct (compute_preserves s phi Hlen Hcons') as (Es1 & Hlen1 & Hcons1).
    cbn [for_each]. destruct (compute_log_likelihood s phi) as [[r s1] n] eqn:E.
    unfold value_of, state_of in Hval, Es1, Hlen1, Hcons1.
    cbn [fst snd] in Hval, Es1, Hlen1, Hcons1.
    rewrite Hval, Hk. cbn [bind _log_likelihood].
    destruct (IH s1 (acc ++ [BinomialLikelihood._log_likelihood lk phi])) as [s' Hs'].
    + rewrite Es1 at 1. rewrite Es at 1. apply set_cache_twice.
    + exact Hlen1.
    + intros k v Hin. rewrite <- Hk. exact (Hcons1 _ _ Hin).
    + exists s'. rewrite Hs', <- app_assoc. reflexivity.
Qed.

Lemma posterior_run `{Utils} (data_point : DataPoint.t) (N : Z)
    (likelihood : BinomialLikelihood.t) :
  BinomialLikelihood.__init__ data_point = Ok likelihood ->
  (1 <= N)%Z ->
  let centres := bin_centers (Z.to_nat N) in
  let ll := map (BinomialLikelihood._log_likelihood likelihood) centres in
  let norm_const := log_sum_exp (map (fun x => x + ln (1 / IZR N)) ll) in
  get_independent_posterior data_point N
  = Ok (combine centres (map (fun x => exp (x - norm_const)) ll)).
Proof.
  intros Hinit HN centres ll norm_const.
  assert (HR : 0 < IZR N) by (apply IZR_lt; lia).
  assert (Hbw : 0 < 1 / IZR N) by (apply Rdiv_lt_0_compat; lra).
  unfold get_independent_posterior. rewrite Hinit. cbn [bind].
  rewrite truediv_nonzero by lra. cbn [bind]. cbv zeta.
  rewrite bin_centres_loop by lia.
  assert (Ec : map (fun i => (INR i * (1 / IZR N) + INR (S i) * (1 / IZR N)) / 2)
                   (seq 0 (Z.to_nat N)) = centres).
  { unfold centres, bin_centers. apply map_ext. intros i.
    replace (INR (Z.to_nat N)) with (IZR N)
      by (rewrite INR_IZR_INZ, Z2Nat.id by lia; reflexivity).
    rewrite S_INR. field. lra. }
  rewrite Ec.
  destruct (likelihood_loop likelihood centres (OfBinomial likelihood) [])
    as [s' Hloop].
  - destruct likelihood as [[] ? ?]. reflexivity.
  - destruct (BinomialLikelihood_init_inv _ _ Hinit) as (Hbase & _).
    destruct (Likelihood_init_inv _ _ Hbase) as (_ & _ & _ & _ & _ & Hcache).
    unfold cache_of. simpl. rewrite Hcache. simpl. lia.
  - destruct (BinomialLikelihood_init_inv _ _ Hinit) as (Hbase & _).
    destruct (Likelihood_init_inv _ _ Hbase) as (_ & _ & _ & _ & _ & Hcache).
    unfold cache_of. simpl. rewrite Hcache. intros k v [].
  - rewrite Hloop. cbn [bind app]. fold ll.
    rewrite (comprehension_Ok _ (fun x => x + ln (1 / IZR N)))
      by (intros x _; rewrite log_pos by exact Hbw; reflexivity).
    cbn [bind]. reflexivity.
Qed.

(** ** The posterior: the claim *)

(** C3 (amended).  For every [DataPoint] from which a [BinomialLikelihood]
    can be built and every [N >= 1], [get_independent_posterior] builds that
    likelihood and returns exactly [N] pairs: the strictly increasing bin
    centres [(i + 1/2) / N], each with
    [exp (log-likelihood at the centre - normaliser)], where the normaliser is
    the log-sum-exp of [(log-likelihood + log (1/N))] over all bins; the
    densities times [1/N] sum to [1]. *)
Theorem posterior_density `{Utils} (data_point : DataPoint.t) (N : Z)
    (likelihood : BinomialLikelihood.t)
    (Hinit : BinomialLikelihood.__init__ data_point = Ok likelihood)
    (HN : (1 <= N)%Z) :
  let centres := bin_centers (Z.to_nat N) in
  let ll := BinomialLikelihood._log_likelihood likelihood in
  let norm_const := log_sum_exp (map (fun phi => ll phi + ln (1 / IZR N)) centres) in
  exists posterior,
    get_independent_posterior data_point N = Ok posterior
    /\ length posterior = Z.to_nat N
    /\ map fst posterior = centres
    /\ strictly_increasing (map fst posterior)
    /\ map snd posterior = map (fun phi => exp (ll phi - norm_const)) centres
    /\ Py.sum (map (fun p => snd p * (1 / IZR N)) posterior) = 1.
Proof.
  intros centres ll norm_const.
  assert (HR : 0 < IZR N) by (apply IZR_lt; lia).
  assert (Hbw : 0 < 1 / IZR N) by (apply Rdiv_lt_0_compat; lra).
  assert (Hnorm : norm_const
                  = log_sum_exp (map (fun x => x + ln (1 / IZR N)) (map ll centres))).
  { unfold norm_const. rewrite map_map. reflexivity. }
  assert (Hlen : length centres
                 = length (map (fun x => exp (x - norm_const)) (map ll centres))).
  { rewrite !length_map. reflexivity. }
  eexists. split.
  { rewrite (posterior_run data_point N likelihood Hinit HN).
    fold centres ll. rewrite <- Hnorm. reflexivity. }
  split; [rewrite length_combine, <- Hlen, Nat.min_id; apply bin_centers_length |].
  split; [apply map_fst_combine, Hlen |].
  split; [rewrite (map_fst_combine _ _ Hlen); apply bin_centers_increasing |].
  split; [rewrite (map_snd_combine _ _ Hlen), map_map; reflexivity |].
  rewrite <- (map_map snd (fun y => y * (1 / IZR N))).
  rewrite (map_snd_combine _ _ Hlen), map_map.
  rewrite Hnorm. apply normalised_density; [| exact Hbw].
  unfold centres, bin_centers. intros E. apply (f_equal (@length R)) in E.
  rewrite !length_map, length_seq in E. simpl in E. lia.
Qed.

Lemma posterior_density_witness :
  exists posterior,
    get_independent_posterior (H := textbook_utils) sample_point 4 = Ok posterior
    /\ length posterior = 4%nat
    /\ map fst posterior = bin_centers 4
    /\ Py.sum (map (fun p => snd p * (1 / 4)) posterior) = 1.
Proof.
  destruct (posterior_density (H := textbook_utils) sample_point 4 sample_binomial
              sample_binomial_init ltac:(lia))
    as (posterior & Hrun & Hlen & Hfst & _ & _ & Hsum).
  exists posterior. repeat split; assumption.
Defined.

(** C3 as stated fails at a data point with pseudo-counts [delta_r = [0; 1]]:
    building the likelihood raises, and no pair is returned. *)
Lemma posterior_density_zero_count :
  well_formed zero_count_point
  /\ Forall (fun x => 0 <= x) (DataPoint.delta_r zero_count_point)
  /\ Forall (fun x => 0 <= x) (DataPoint.delta_v zero_count_point)
  /\ get_independent_posterior (H := textbook_utils) zero_count_point 4
     = Raise ValueError.
Proof.
  split; [split; reflexivity |].
  split; [simpl; repeat constructor; lra |].
  split; [simpl; repeat constructor; lra |].
  unfold get_independent_posterior, BinomialLikelihood.__init__, Likelihood.__init__.
  change (DataPoint.delta_r zero_count_point) with [0; 1].
  rewrite get_log_mix_weights_zero; [reflexivity | simpl; lia | left; reflexivity].
Qed.

(** * Further properties of the module *)

(** ** Mixture weights *)

(** X1.  [_get_log_mix_weights] has two outcomes only: it returns exactly one
    log-weight per pseudo-count, or it raises [ValueError]. *)
Theorem mix_weights_outcome (delta : list R) :
  (exists ws, Likelihood._get_log_mix_weights delta = Ok ws
              /\ length ws = length delta)
  \/ Likelihood._get_log_mix_weights delta = Raise ValueError.
Proof.
  destruct (Likelihood._get_log_mix_weights delta) as [ws | e] eqn:Erun.
  - left. exists ws. split; [reflexivity | apply get_log_mix_weights_length, Erun].
  - right. f_equal. exact (get_log_mix_weights_Raise _ _ Erun).
Qed.

Lemma nth_weight_formula (delta : list R) (i : nat) :
  (i < length delta)%nat ->
  nth i (map (weight_formula delta) (indices delta)) 0 = weight_formula delta i.
Proof.
  intros Hi.
  rewrite (nth_indep _ 0 (weight_formula delta 0))
    by (unfold indices; rewrite length_map, length_seq; exact Hi).
  rewrite (map_nth (weight_formula delta) (indices delta) 0%nat i).
  unfold indices. rewrite seq_nth by exact Hi. reflexivity.
Qed.

(** X2.  On strictly positive pseudo-counts the weights are in the ratio of
    the pseudo-counts: [weight_i - weight_j = ln delta_i - ln delta_j]. *)
Theorem mix_weights_ratio (delta : list R)
    (Hpos : Forall (fun x => 0 < x) delta) :
  exists ws,
    Likelihood._get_log_mix_weights delta = Ok ws
    /\ forall i j, (i < length delta)%nat -> (j < length delta)%nat ->
         nth i ws 0 - nth j ws 0 = ln (nth i delta 0) - ln (nth j delta 0)
         /\ exp (nth i ws 0) * nth j delta 0 = exp (nth j ws 0) * nth i delta 0.
Proof.
  exists (map (weight_formula delta) (indices delta)).
  split; [apply get_log_mix_weights_usable, usable_pos, Hpos |].
  intros i j Hi Hj. rewrite !nth_weight_formula by assumption.
  rewrite !weight_formula_pos by assumption.
  assert (Hdi : 0 < nth i delta 0).
  { rewrite Forall_forall in Hpos. apply Hpos, nth_In, Hi. }
  assert (Hdj : 0 < nth j delta 0).
  { rewrite Forall_forall in Hpos. apply Hpos, nth_In, Hj. }
  split; [ring |].
  unfold Rminus. rewrite !exp_plus, !exp_ln by assumption. ring.
Qed.

Lemma mix_weights_ratio_witness :
  exists ws,
    Likelihood._get_log_mix_weights [2; 6] = Ok ws
    /\ nth 1 ws 0 - nth 0 ws 0 = ln 6 - ln 2.
Proof.
  destruct (mix_weights_ratio [2; 6]) as (ws & Hws & Hratio).
  - repeat constructor; lra.
  - exists ws. split; [exact Hws |].
    exact (proj1 (Hratio 1%nat 0%nat ltac:(simpl; lia) ltac:(simpl; lia))).
Defined.

(** ** The memo cache *)

(** X3.  A call changes nothing of the instance but its cache: the instance
    afterwards is the instance before with another cache, and the kernel
    computes the same value at every point. *)
Theorem compute_changes_cache_only `{Utils} (self : instance) (phi : R) :
  let self' := state_of (compute_log_likelihood self phi) in
  self' = set_cache self (cache_of self')
  /\ Likelihood.log_pi_r (base_of self') = Likelihood.log_pi_r (base_of self)
  /\ Likelihood.log_pi_v (base_of self') = Likelihood.log_pi_v (base_of self)
  /\ Likelihood._log_binomial_norm_const (base_of self')
     = Likelihood._log_binomial_norm_const (base_of self)
  /\ forall x, _log_likelihood self' x = _log_likelihood self x.
Proof.
  intros self'.
  assert (E : self' = set_cache self (cache_of self')).
  { unfold self'.
    destruct (compute_cases self phi)
      as [(v & _ & E) | [(e & _ & _ & E) | (v & _ & _ & E)]];
      rewrite E; unfold state_of; simpl.
    - symmetry. apply set_cache_same.
    - symmetry. apply set_cache_same.
    - rewrite cache_of_set_cache. reflexivity. }
  split; [exact E |]. rewrite E.
  repeat split; destruct self; reflexivity.
Qed.

(** X4.  The only exception [compute_log_likelihood] can raise is the one
    its kernel raises on a miss; the lookups of the cache never fail, in any
    state of the cache. *)
Theorem compute_raises_only_kernel `{Utils} (self : instance) (phi : R) :
  ((exists v, value_of (compute_log_likelihood self phi) = Ok v)
   \/ (exists e, value_of (compute_log_likelihood self phi) = Raise e
                 /\ _log_likelihood self phi = Raise e
                 /\ OrderedDict.get (cache_of self) phi = None))
  /\ value_of (compute_log_likelihood self phi) <> Raise KeyError
  /\ value_of (compute_log_likelihood self phi) <> Raise IndexError.
Proof.
  destruct (compute_cases self phi)
    as [(v & _ & E) | [(e & Hget & Hf & E) | (v & _ & _ & E)]];
    rewrite E; unfold value_of; simpl.
  - split; [left; exists v; reflexivity | split; discriminate].
  - split; [right; exists e; repeat split; assumption |].
    assert (He : e = TypeError).
    { destruct self; simpl in Hf; try discriminate.
      injection Hf as <-. reflexivity. }
    subst e. split; discriminate.
  - split; [left; exists v; reflexivity | split; discriminate].
Qed.

Lemma next_cache_NoDup (c : OrderedDict.t) (phi v : R) :
  NoDup (OrderedDict.keys c) -> OrderedDict.get c phi = None ->
  NoDup (OrderedDict.keys (next_cache c phi v)).
Proof.
  intros Hnd Hget. apply get_None in Hget.
  assert (Hall : NoDup (OrderedDict.keys c ++ [phi])).
  { apply NoDup_app; [exact Hnd | repeat constructor; intros [] |].
    intros x Hx [<- | []]. contradiction. }
  rewrite keys_next_cache. destruct (1000 <=? length c)%nat; [| exact Hall].
  destruct (OrderedDict.keys c ++ [phi]) as [| k rest]; [constructor |].
  simpl. inversion Hall; assumption.
Qed.

(** X5.  In every state reached from a fresh instance no [phi] is cached
    twice. *)
Theorem cache_keys_unique `{Utils} (fresh : instance) (phis : list R)
    (Hfresh : cache_of fresh = OrderedDict.empty) :
  NoDup (OrderedDict.keys (cache_of (after_calls fresh phis))).
Proof.
  induction phis as [| phi phis IH] using rev_ind.
  - simpl. rewrite Hfresh. constructor.
  - rewrite after_calls_snoc.
    destruct (compute_cases (after_calls fresh phis) phi)
      as [(v & _ & E) | [(e & _ & _ & E) | (v & Hget & _ & E)]];
      rewrite E; unfold state_of; simpl; try exact IH.
    rewrite cache_of_set_cache. apply next_cache_NoDup; assumption.
Qed.

Lemma cache_keys_unique_witness :
  NoDup (OrderedDict.keys
           (cache_of (after_calls (H := textbook_utils)
                        (OfBinomial sample_binomial) [1 / 2; 1 / 4; 1 / 2]))).
Proof.
  exact (cache_keys_unique (H := textbook_utils) (OfBinomial sample_binomial)
           [1 / 2; 1 / 4; 1 / 2] eq_refl).
Defined.

Lemma get_Some_of_key (c : OrderedDict.t) (k : R) :
  In k (OrderedDict.keys c) -> exists v, OrderedDict.get c k = Some v.
Proof.
  intros Hin. destruct (OrderedDict.get c k) as [v |] eqn:Hget.
  - exists v. reflexivity.
  - apply get_None in Hget. contradiction.
Qed.

(** X6.  Reading an entry does not renew it: eviction goes by insertion
    order.  After 1000 distinct keys, a second call on the first key is a hit
    that leaves the cache as it is, and the next new key still evicts that
    first key. *)
Theorem hit_does_not_renew `{Utils} (fresh : instance) (phis : list R) (phi_new : R)
    (Hfresh : cache_of fresh = OrderedDict.empty)
    (Hkind : forall l, fresh <> OfLikelihood l)
    (Hnd : NoDup (phis ++ [phi_new]))
    (Hlen : length phis = 1000%nat) :
  let oldest := hd 0 phis in
  after_calls fresh (phis ++ [oldest]) = after_calls fresh phis
  /\ evaluations_of (compute_log_likelihood (after_calls fresh phis) oldest) = 0%nat
  /\ OrderedDict.keys (cache_of (after_calls fresh (phis ++ [oldest; phi_new])))
     = tl phis ++ [phi_new]
  /\ ~ In oldest
         (OrderedDict.keys (cache_of (after_calls fresh (phis ++ [oldest; phi_new])))).
Proof.
  intros oldest.
  assert (Hnd' : NoDup phis).
  { apply NoDup_remove_1 in Hnd. rewrite app_nil_r in Hnd. exact Hnd. }
  assert (Hnew : ~ In phi_new phis).
  { apply NoDup_remove_2 in Hnd. rewrite app_nil_r in Hnd. exact Hnd. }
  assert (Hkeys : OrderedDict.keys (cache_of (after_calls fresh phis)) = phis).
  { rewrite keys_after_distinct; try assumption.
    - rewrite Hlen, Nat.sub_diag. reflexivity.
    - intros phi _. apply not_abstract_total, Hkind. }
  assert (Hin0 : In oldest phis).
  { unfold oldest. destruct phis; [discriminate | left; reflexivity]. }
  destruct (get_Some_of_key (cache_of (after_calls fresh phis)) oldest) as [v0 Hget0].
  { rewrite Hkeys. exact Hin0. }
  pose proof (compute_hit _ _ _ Hget0) as Ehit.
  assert (Estay : after_calls fresh (phis ++ [oldest]) = after_calls fresh phis).
  { rewrite after_calls_snoc, Ehit. reflexivity. }
  assert (Ekeys : OrderedDict.keys
                    (cache_of (after_calls fresh (phis ++ [oldest; phi_new])))
                  = tl phis ++ [phi_new]).
  { change [oldest; phi_new] with ([oldest] ++ [phi_new]).
    rewrite app_assoc, after_calls_snoc, Estay.
    destruct (not_abstract_total (after_calls fresh phis) phi_new) as [v Hv].
    { intros l El. destruct (after_calls_preserves fresh phis Hfresh) as (E & _ & _).
      rewrite El in E. destruct fresh; try discriminate. exact (Hkind _ eq_refl). }
    rewrite (compute_miss _ phi_new v); [| apply get_None; rewrite Hkeys; exact Hnew | exact Hv].
    unfold state_of. simpl. rewrite cache_of_set_cache, keys_next_cache, Hkeys.
    assert (Hc : length (cache_of (after_calls fresh phis)) = 1000%nat).
    { rewrite <- Hlen. rewrite <- Hkeys at 2. unfold OrderedDict.keys.
      rewrite length_map. reflexivity. }
    rewrite Hc. simpl. destruct phis; [discriminate | reflexivity]. }
  split; [exact Estay |].
  split; [rewrite Ehit; reflexivity |].
  split; [exact Ekeys |].
  rewrite Ekeys. unfold oldest. destruct phis as [| phi0 rest]; [discriminate |].
  simpl. intros Hin. apply in_app_or in Hin.
  inversion Hnd' as [| ? ? Hnotin _]; subst.
  destruct Hin as [Hin | [Heq | []]]; [contradiction |].
  apply Hnew. rewrite <- Heq. left. reflexivity.
Qed.

Lemma INR_seq_snoc_NoDup (n : nat) : NoDup (map INR (seq 0 n) ++ [INR n]).
Proof.
  pose proof (INR_seq_NoDup (S n)) as Hnd.
  rewrite seq_S, map_app in Hnd. exact Hnd.
Qed.

Lemma hit_does_not_renew_witness :
  OrderedDict.keys
    (cache_of (after_calls (H := textbook_utils) (OfBinomial sample_binomial)
                 (map INR (seq 0 1000) ++ [INR 0; INR 1000])))
  = tl (map INR (seq 0 1000)) ++ [INR 1000].
Proof.
  refine (proj1 (proj2 (proj2
            (hit_does_not_renew (H := textbook_utils) (OfBinomial sample_binomial)
               (map INR (seq 0 1000)) (INR 1000) eq_refl _
               (INR_seq_snoc_NoDup 1000) _)))).
  - intros l. discriminate.
  - rewrite length_map, length_seq. reflexivity.
Defined.

(** ** The beta-binomial likelihood *)

(** X7.  [_set_beta_params] gives one pair of shape parameters per variant
    frequency, and each pair adds up to the precision [s]; for [s > 0] both
    parameters are positive when the frequency is strictly between 0 and 1,
    while a frequency of 0 or 1 gives a shape parameter equal to 0. *)
Theorem beta_params_precision (mu_v : list R) (s : R) :
  let alpha_v := fst (BetaBinomialLikelihood._set_beta_params mu_v s) in
  let beta_v := snd (BetaBinomialLikelihood._set_beta_params mu_v s) in
  length alpha_v = length mu_v
  /\ length beta_v = length mu_v
  /\ forall j, (j < length mu_v)%nat ->
       nth j alpha_v 0 + nth j beta_v 0 = s
       /\ (0 < s -> 0 < nth j mu_v 0 < 1 ->
           0 < nth j alpha_v 0 /\ 0 < nth j beta_v 0)
       /\ (nth j mu_v 0 = 0 -> nth j alpha_v 0 = 0)
       /\ (nth j mu_v 0 = 1 -> nth j beta_v 0 = 0).
Proof.
  rewrite set_beta_params_map. simpl.
  split; [apply length_map |]. split; [apply length_map |].
  intros j Hj.
  rewrite (nth_indep (map (fun m => s * m) _) 0 (s * 0))
    by (rewrite length_map; exact Hj).
  rewrite (nth_indep (map (fun m => s - s * m) _) 0 (s - s * 0))
    by (rewrite length_map; exact Hj).
  rewrite (map_nth (fun m => s * m)), (map_nth (fun m => s - s * m)).
  split; [ring |]. split; [| split].
  - intros Hs [H0 H1]. split; nra.
  - intros ->. ring.
  - intros ->. ring.
Qed.

(** X8.  For [mesh_size = M >= 1], [_set_mesh] gives [M] points spaced by
    the bin width [exp _log_xi = 1/M], the first one half a bin from 0, placed
    symmetrically about 1/2; the [M] Riemann weights add up to 1. *)
Theorem mesh_uniform (M : Z) (HM : (1 <= M)%Z) :
  exists _mesh _log_xi,
    BetaBinomialLikelihood._set_mesh M = Ok (_mesh, _log_xi)
    /\ length _mesh = Z.to_nat M
    /\ exp _log_xi = 1 / IZR M
    /\ INR (length _mesh) * exp _log_xi = 1
    /\ nth 0 _mesh 0 = exp _log_xi / 2
    /\ (forall i, (S i < Z.to_nat M)%nat ->
          nth (S i) _mesh 0 - nth i _mesh 0 = exp _log_xi)
    /\ (forall i, (i < Z.to_nat M)%nat ->
          nth i _mesh 0 + nth (Z.to_nat M - 1 - i) _mesh 0 = 1).
Proof.
  assert (HR : 0 < IZR M) by (apply IZR_lt; lia).
  assert (En : INR (Z.to_nat M) = IZR M)
    by (rewrite INR_IZR_INZ, Z2Nat.id by lia; reflexivity).
  assert (Ex : exp (- ln (IZR M)) = 1 / IZR M).
  { rewrite exp_Ropp, exp_ln by exact HR. unfold Rdiv. ring. }
  exists (midpoints (Z.to_nat M)), (- ln (IZR M)).
  split; [apply set_mesh_pos, HM |].
  rewrite midpoints_length, Ex, En.
  split; [reflexivity |]. split; [reflexivity |].
  split; [field; lra |].
  split; [| split].
  - rewrite midpoints_nth by lia. rewrite En. simpl. field. lra.
  - intros i Hi. rewrite !midpoints_nth by lia. rewrite En, S_INR. field. lra.
  - intros i Hi. rewrite !midpoints_nth by lia.
    rewrite !minus_INR by lia. rewrite En. simpl. field. lra.
Qed.

Lemma mesh_uniform_witness :
  exists _mesh _log_xi,
    BetaBinomialLikelihood._set_mesh 4 = Ok (_mesh, _log_xi)
    /\ length _mesh = 4%nat
    /\ exp _log_xi = 1 / 4.
Proof.
  destruct (mesh_uniform 4 ltac:(lia)) as (mesh & lx & Hrun & Hlen & Hx & _).
  exists mesh, lx. repeat split; assumption.
Defined.

Lemma set_mesh_zero :
  BetaBinomialLikelihood._set_mesh 0 = Raise ZeroDivisionError.
Proof.
  unfold BetaBinomialLikelihood._set_mesh. simpl. unfold Py.truediv.
  destruct (Req_dec_T 0 0); [reflexivity | lra].
Qed.

Lemma set_mesh_negative (M : Z) :
  (M < 0)%Z -> BetaBinomialLikelihood._set_mesh M = Raise ValueError.
Proof.
  intros HM. unfold BetaBinomialLikelihood._set_mesh.
  assert (E1 : Py.range (M + 1) = []).
  { unfold Py.range. replace (Z.to_nat (M + 1)) with 0%nat by lia. reflexivity. }
  assert (E2 : Py.range M = []).
  { unfold Py.range. replace (Z.to_nat M) with 0%nat by lia. reflexivity. }
  rewrite E1, E2. simpl. unfold Py.log.
  assert (IZR M < 0) by (apply IZR_lt; lia).
  destruct (Rlt_dec 0 (IZR M)); [lra | reflexivity].
Qed.

(** X9.  [BetaBinomialLikelihood] can be built exactly when the base
    [Likelihood] can and [mesh_size >= 1].  When the base is built, a
    [mesh_size] of 0 raises [ZeroDivisionError] and a negative one
    [ValueError]; when the base raises, that exception comes first. *)
Theorem beta_binomial_construction `{Utils}
    (data_point : DataPoint.t) (M : Z) (s : R) :
  ((exists self, BetaBinomialLikelihood.__init__ data_point M s = Ok self)
   <-> ((exists base, Likelihood.__init__ data_point = Ok base) /\ (1 <= M)%Z))
  /\ (forall base, Likelihood.__init__ data_point = Ok base ->
        (M = 0%Z ->
         BetaBinomialLikelihood.__init__ data_point M s = Raise ZeroDivisionError)
        /\ ((M < 0)%Z ->
            BetaBinomialLikelihood.__init__ data_point M s = Raise ValueError))
  /\ (forall e, Likelihood.__init__ data_point = Raise e ->
        BetaBinomialLikelihood.__init__ data_point M s = Raise e).
Proof.
  split; [| split].
  - split.
    + intros [self Hinit].
      destruct (BetaBinomialLikelihood_init_inv _ _ _ _ Hinit) as (HM & Hbase & _).
      split; [exists (BetaBinomialLikelihood.base self); exact Hbase | exact HM].
    + intros [[base Hbase] HM]. unfold BetaBinomialLikelihood.__init__.
      rewrite Hbase. cbn [bind]. rewrite set_beta_params_map, set_mesh_pos by exact HM.
      eexists. reflexivity.
  - intros base Hbase. unfold BetaBinomialLikelihood.__init__.
    rewrite Hbase. cbn [bind]. rewrite set_beta_params_map. split.
    + intros ->. rewrite set_mesh_zero. reflexivity.
    + intros HM. rewrite set_mesh_negative by exact HM. reflexivity.
  - intros e He. unfold BetaBinomialLikelihood.__init__. rewrite He. reflexivity.
Qed.

(** ** The posterior *)

(** X10.  [get_independent_posterior] builds the likelihood before anything
    else: an exception of the construction is raised whatever [num_bins] is,
    and [num_bins = 0] on a data point that can be built raises
    [ZeroDivisionError]. *)
Theorem posterior_errors `{Utils} (data_point : DataPoint.t) :
  (forall e N, BinomialLikelihood.__init__ data_point = Raise e ->
     get_independent_posterior data_point N = Raise e)
  /\ (forall likelihood, BinomialLikelihood.__init__ data_point = Ok likelihood ->
        get_independent_posterior data_point 0 = Raise ZeroDivisionError).
Proof.
  split.
  - intros e N He. unfold get_independent_posterior. rewrite He. reflexivity.
  - intros likelihood Hinit. unfold get_independent_posterior.
    rewrite Hinit. cbn [bind]. unfold Py.truediv.
    destruct (Req_dec_T (IZR 0) 0); [reflexivity | lra].
Qed.

(** ** The binomial kernel and likelihood *)

Lemma cross_product_ext (n_r n_v : nat) (f g : nat -> nat -> R) :
  (forall i j, (i < n_r)%nat -> (j < n_v)%nat -> f i j = g i j) ->
  cross_product n_r n_v f = cross_product n_r n_v g.
Proof.
  intros Hfg. unfold cross_product. rewrite !flat_map_concat_map. f_equal.
  apply map_ext_in. intros i Hi. apply in_seq in Hi.
  apply map_ext_in. intros j Hj. apply in_seq in Hj. apply Hfg; lia.
Qed.

Lemma kernel_interpolation `{Utils} (self : Likelihood.t) (phi mu_r mu_v : R) :
  let at_frequency mu :=
    Likelihood._log_binomial_norm_const self
    + log_binomial_likelihood (Likelihood.a self) (Likelihood.d self) mu in
  Likelihood._log_binomial_likelihood self 0 mu_r mu_v = at_frequency mu_r
  /\ Likelihood._log_binomial_likelihood self 1 mu_r mu_v = at_frequency mu_v
  /\ Likelihood._log_binomial_likelihood self phi mu_r mu_v
     = Likelihood._log_binomial_likelihood self (1 - phi) mu_v mu_r.
Proof.
  unfold Likelihood._log_binomial_likelihood. cbv zeta.
  repeat split; do 2 f_equal; ring.
Qed.

(** X11.  At [phi = 0] the binomial likelihood does not depend on the
    variant frequencies, and at [phi = 1] not on the reference frequencies:
    replacing them by any other list of the same length gives the same
    value. *)
Theorem likelihood_at_ends `{Utils} (base : Likelihood.t)
    (mu_r mu_r' mu_v mu_v' : list R)
    (Hr : length mu_r = length mu_r')
    (Hv : length mu_v = length mu_v') :
  BinomialLikelihood._log_likelihood (BinomialLikelihood.mk base mu_r mu_v) 0
  = BinomialLikelihood._log_likelihood (BinomialLikelihood.mk base mu_r mu_v') 0
  /\ BinomialLikelihood._log_likelihood (BinomialLikelihood.mk base mu_r mu_v) 1
     = BinomialLikelihood._log_likelihood (BinomialLikelihood.mk base mu_r' mu_v) 1.
Proof.
  rewrite !binomial_cross_product. simpl. unfold components.
  rewrite <- Hr, <- Hv. split; f_equal; apply cross_product_ext; intros i j _ _.
  - rewrite (proj1 (kernel_interpolation base 0 (nth i mu_r 0) (nth j mu_v 0))).
    rewrite (proj1 (kernel_interpolation base 0 (nth i mu_r 0) (nth j mu_v' 0))).
    reflexivity.
  - rewrite (proj1 (proj2 (kernel_interpolation base 0 (nth i mu_r 0) (nth j mu_v 0)))).
    rewrite (proj1 (proj2 (kernel_interpolation base 0 (nth i mu_r' 0) (nth j mu_v 0)))).
    reflexivity.
Qed.

Lemma likelihood_at_ends_witness :
  BinomialLikelihood._log_likelihood (H := textbook_utils)
    (BinomialLikelihood.mk sample_base [1 / 4; 1 / 2] [1 / 2]) 0
  = BinomialLikelihood._log_likelihood (H := textbook_utils)
      (BinomialLikelihood.mk sample_base [1 / 4; 1 / 2] [3 / 4]) 0.
Proof.
  exact (proj1 (likelihood_at_ends (H := textbook_utils) sample_base
                  [1 / 4; 1 / 2] [1 / 4; 1 / 2] [1 / 2] [3 / 4] eq_refl eq_refl)).
Defined.

Lemma get_log_mix_weights_single (x : R) :
  0 <= x -> Likelihood._get_log_mix_weights [x] = Ok [0].
Proof.
  intros Hx. rewrite get_log_mix_weights_usable.
  - unfold indices, weight_formula. simpl.
    replace (x + 0 + 1) with (x + 1) by ring.
    do 2 f_equal. ring.
  - split; [constructor; [exact Hx | constructor] | left; simpl; lia].
Qed.

Lemma log_sum_exp_single (x : R) : log_sum_exp [x] = x.
Proof.
  unfold log_sum_exp, Py.sum. simpl. rewrite Rplus_0_l. apply ln_exp.
Qed.

(** X12.  With a single reference and a single variant component the
    mixture is the plain binomial model: whatever the two (non-negative)
    pseudo-counts, [_log_likelihood phi] is
    [log_binomial_coefficient d a
     + log_binomial_likelihood a d ((1 - phi) * mu_r + phi * mu_v)]. *)
Theorem single_component_binomial `{Utils}
    (a d : Z) (mu_r mu_v delta_r delta_v phi : R)
    (Hr : 0 <= delta_r) (Hv : 0 <= delta_v) :
  exists self,
    BinomialLikelihood.__init__
      (DataPoint.__init__ a d [mu_r] [mu_v] [delta_r] [delta_v]) = Ok self
    /\ BinomialLikelihood._log_likelihood self phi
       = log_binomial_coefficient d a
         + log_binomial_likelihood a d ((1 - phi) * mu_r + phi * mu_v).
Proof.
  eexists. split.
  - unfold BinomialLikelihood.__init__, Likelihood.__init__. simpl.
    rewrite !get_log_mix_weights_single by assumption. reflexivity.
  - unfold BinomialLikelihood._log_likelihood. simpl.
    rewrite log_sum_exp_single.
    unfold Likelihood._log_binomial_likelihood. simpl. ring.
Qed.

Lemma single_component_binomial_witness :
  exists self,
    BinomialLikelihood.__init__ (H := textbook_utils)
      (DataPoint.__init__ 5 10 [1 / 2] [1 / 2] [1] [1]) = Ok self
    /\ BinomialLikelihood._log_likelihood (H := textbook_utils) self 0
       = log_binomial_coefficient (Utils := textbook_utils) 10 5
         + log_binomial_likelihood (Utils := textbook_utils) 5 10
             ((1 - 0) * (1 / 2) + 0 * (1 / 2)).
Proof.
  exact (single_component_binomial (H := textbook_utils) 5 10 (1 / 2) (1 / 2) 1 1 0
           ltac:(lra) ltac:(lra)).
Defined.

Lemma nth_Forall_eq (l : list R) (m : R) (i : nat) :
  Forall (fun x => x = m) l -> (i < length l)%nat -> nth i l 0 = m.
Proof.
  intros Hall Hi. rewrite Forall_forall in Hall. apply Hall, nth_In, Hi.
Qed.

Lemma binomial_equal_frequencies `{Utils} (self : BinomialLikelihood.t) (m : R) :
  Forall (fun x => x = m) (BinomialLikelihood.mu_r self) ->
  Forall (fun x => x = m) (BinomialLikelihood.mu_v self) ->
  forall phi phi',
    BinomialLikelihood._log_likelihood self phi
    = BinomialLikelihood._log_likelihood self phi'.
Proof.
  intros Hr Hv phi phi'. rewrite !binomial_cross_product. f_equal.
  apply cross_product_ext. intros i j Hi Hj. unfold components in Hi, Hj.
  rewrite (nth_Forall_eq _ m i Hr), (nth_Forall_eq _ m j Hv) by lia.
  unfold Likelihood._log_binomial_likelihood. cbv zeta. do 3 f_equal. ring.
Qed.

Lemma py_sum_const {A : Type} (l : list A) (k : R) :
  Py.sum (map (fun _ => k) l) = INR (length l) * k.
Proof.
  induction l as [| x l IH].
  - unfold Py.sum. simpl. ring.
  - cbn [map]. rewrite py_sum_cons, IH. cbn [length]. rewrite S_INR. ring.
Qed.

Lemma binomial_init_usable `{Utils} (data_point : DataPoint.t) :
  usable (DataPoint.delta_r data_point) ->
  usable (DataPoint.delta_v data_point) ->
  exists likelihood, BinomialLikelihood.__init__ data_point = Ok likelihood.
Proof.
  intros Hr Hv. unfold BinomialLikelihood.__init__.
  rewrite (Likelihood_init_usable data_point Hr Hv). eexists. reflexivity.
Qed.

(** ** The posterior, continued *)

(** X13.  When all candidate frequencies of a data point are equal, the
    likelihood does not depend on [phi] and the posterior is uniform: every
    one of the [N] densities is 1. *)
Theorem uniform_posterior `{Utils} (data_point : DataPoint.t) (N : Z)
    (likelihood : BinomialLikelihood.t) (m : R)
    (Hinit : BinomialLikelihood.__init__ data_point = Ok likelihood)
    (HN : (1 <= N)%Z)
    (Hr : Forall (fun x => x = m) (DataPoint.mu_r data_point))
    (Hv : Forall (fun x => x = m) (DataPoint.mu_v data_point)) :
  (forall phi phi',
     BinomialLikelihood._log_likelihood likelihood phi
     = BinomialLikelihood._log_likelihood likelihood phi')
  /\ exists posterior,
       get_independent_posterior data_point N = Ok posterior
       /\ length posterior = Z.to_nat N
       /\ map snd posterior = map (fun _ => 1) (bin_centers (Z.to_nat N)).
Proof.
  destruct (BinomialLikelihood_init_inv _ _ Hinit) as (_ & Emr & Emv).
  assert (Hconst : forall phi phi',
             BinomialLikelihood._log_likelihood likelihood phi
             = BinomialLikelihood._log_likelihood likelihood phi').
  { apply (binomial_equal_frequencies likelihood m).
    - rewrite Emr. exact Hr.
    - rewrite Emv. exact Hv. }
  split; [exact Hconst |].
  assert (HR : 0 < IZR N) by (apply IZR_lt; lia).
  assert (Hbw : 0 < 1 / IZR N) by (apply Rdiv_lt_0_compat; lra).
  assert (En : INR (Z.to_nat N) = IZR N)
    by (rewrite INR_IZR_INZ, Z2Nat.id by lia; reflexivity).
  set (centres := bin_centers (Z.to_nat N)).
  set (c := BinomialLikelihood._log_likelihood likelihood 0).
  assert (Ell : map (BinomialLikelihood._log_likelihood likelihood) centres
                = map (fun _ => c) centres).
  { apply map_ext. intros phi. apply Hconst. }
  assert (Hne : map (fun _ : R => c) centres <> []).
  { intros E. apply (f_equal (@length R)) in E.
    unfold centres in E. rewrite length_map, bin_centers_length in E.
    simpl in E. lia. }
  pose proof (normalised_density _ _ Hne Hbw) as Hnorm. cbv zeta in Hnorm.
  set (norm_const := log_sum_exp
                       (map (fun x => x + ln (1 / IZR N)) (map (fun _ : R => c) centres)))
    in Hnorm.
  assert (Hone : exp (c - norm_const) = 1).
  { rewrite map_map, py_sum_const in Hnorm.
    unfold centres in Hnorm. rewrite bin_centers_length, En in Hnorm.
    apply Rmult_eq_reg_l with (IZR N * (1 / IZR N)); [| apply Rgt_not_eq; nra].
    rewrite <- Hnorm at 2. field. lra. }
  eexists. split; [| split].
  - rewrite (posterior_run data_point N likelihood Hinit HN). reflexivity.
  - rewrite length_combine, !length_map, Nat.min_id. apply bin_centers_length.
  - rewrite map_snd_combine by (rewrite !length_map; reflexivity).
    fold centres. rewrite Ell. fold norm_const. rewrite map_map.
    apply map_ext. intros _. exact Hone.
Qed.

Lemma equal_frequency_point_usable :
  usable (DataPoint.delta_r equal_frequency_point)
  /\ usable (DataPoint.delta_v equal_frequency_point).
Proof. split; apply usable_pos; simpl; repeat constructor; lra. Qed.

Lemma uniform_posterior_witness :
  exists posterior,
    get_independent_posterior (H := textbook_utils) equal_frequency_point 4
      = Ok posterior
    /\ map snd posterior = map (fun _ => 1) (bin_centers 4).
Proof.
  destruct (binomial_init_usable (H := textbook_utils) equal_frequency_point
              (proj1 equal_frequency_point_usable)
              (proj2 equal_frequency_point_usable)) as [likelihood Hinit].
  destruct (proj2 (uniform_posterior (H := textbook_utils) equal_frequency_point 4
                     likelihood (1 / 2) Hinit ltac:(lia)
                     ltac:(simpl; repeat constructor)
                     ltac:(simpl; repeat constructor)))
    as (posterior & Hrun & _ & Hsnd).
  exists posterior. split; assumption.
Defined.




Lemma log_sum_exp_shift (l : list R) (k : R) :
  l <> [] -> log_sum_exp (map (fun x => x + k) l) = log_sum_exp l + k.
Proof.
  intros Hne. unfold log_sum_exp. rewrite map_map.
  rewrite (map_ext _ (fun x => exp x * exp k)) by (intros x; apply exp_plus).
  rewrite py_sum_scale, ln_mult, ln_exp;
    [reflexivity | apply py_sum_exp_pos, Hne | apply exp_pos].
Qed.

Lemma cross_product_shift (n_r n_v : nat) (f : nat -> nat -> R) (k : R) :
  cross_product n_r n_v (fun i j => f i j + k)
  = map (fun x => x + k) (cross_product n_r n_v f).
Proof.
  unfold cross_product. rewrite !flat_map_concat_map, concat_map, map_map.
  f_equal. apply map_ext. intros i. rewrite map_map. reflexivity.
Qed.

Lemma cross_product_nil (n_r n_v : nat) (f : nat -> nat -> R) :
  n_r = 0%nat \/ n_v = 0%nat -> cross_product n_r n_v f = [].
Proof.
  intros [-> | ->]; unfold cross_product; [reflexivity |].
  simpl. induction (seq 0 n_r) as [| i l IH]; [reflexivity | exact IH].
Qed.

Lemma cross_product_nonempty (n_r n_v : nat) (f : nat -> nat -> R) :
  n_r <> 0%nat -> n_v <> 0%nat -> cross_product n_r n_v f <> [].
Proof.
  intros Hr Hv. destruct n_r as [| n_r]; [contradiction |].
  destruct n_v as [| n_v]; [contradiction |].
  unfold cross_product. simpl. discriminate.
Qed.

Lemma binomial_init_with_coefficient (U : Utils) (coefficient : Z -> Z -> R)
    (data_point : DataPoint.t) :
  BinomialLikelihood.__init__ (H := with_log_binomial_coefficient U coefficient)
    data_point
  = match BinomialLikelihood.__init__ (H := U) data_point with
    | Ok self =>
        Ok (with_norm_const self
              (coefficient (DataPoint.d data_point) (DataPoint.a data_point)))
    | Raise e => Raise e
    end.
Proof.
  unfold BinomialLikelihood.__init__, Likelihood.__init__.
  destruct (Likelihood._get_log_mix_weights (DataPoint.delta_r data_point));
    [| reflexivity].
  destruct (Likelihood._get_log_mix_weights (DataPoint.delta_v data_point));
    reflexivity.
Qed.

(** Changing the normalising constant shifts the likelihood by the
    difference, unless there is no component to sum over. *)
Lemma binomial_norm_const_shift (U : Utils) (coefficient : Z -> Z -> R)
    (self : BinomialLikelihood.t) (c : R) :
  let k := c - Likelihood._log_binomial_norm_const (BinomialLikelihood.base self) in
  (forall phi,
     BinomialLikelihood._log_likelihood
       (H := with_log_binomial_coefficient U coefficient) (with_norm_const self c) phi
     = BinomialLikelihood._log_likelihood (H := U) self phi)
  \/ (forall phi,
        BinomialLikelihood._log_likelihood
          (H := with_log_binomial_coefficient U coefficient) (with_norm_const self c) phi
        = BinomialLikelihood._log_likelihood (H := U) self phi + k).
Proof.
  intros k.
  set (n_r := components (BinomialLikelihood.mu_r self)
                (Likelihood.log_pi_r (BinomialLikelihood.base self))).
  set (n_v := components (BinomialLikelihood.mu_v self)
                (Likelihood.log_pi_v (BinomialLikelihood.base self))).
  assert (Hshift : forall phi,
            BinomialLikelihood._log_likelihood
              (H := with_log_binomial_coefficient U coefficient)
              (with_norm_const self c) phi
            = log_sum_exp
                (map (fun x => x + k)
                   (cross_product n_r n_v
                      (fun i j =>
                         nth i (Likelihood.log_pi_r (BinomialLikelihood.base self)) 0
                         + nth j (Likelihood.log_pi_v (BinomialLikelihood.base self)) 0
                         + Likelihood._log_binomial_likelihood (H := U)
                             (BinomialLikelihood.base self) phi
                             (nth i (BinomialLikelihood.mu_r self) 0)
                             (nth j (BinomialLikelihood.mu_v self) 0))))).
  { intros phi. rewrite binomial_cross_product, <- cross_product_shift. f_equal.
    apply cross_product_ext. intros i j _ _.
    unfold Likelihood._log_binomial_likelihood, k. simpl. ring. }
  assert (Hk : forall phi,
            BinomialLikelihood._log_likelihood (H := U) self phi
            = log_sum_exp
                (cross_product n_r n_v
                   (fun i j =>
                      nth i (Likelihood.log_pi_r (BinomialLikelihood.base self)) 0
                      + nth j (Likelihood.log_pi_v (BinomialLikelihood.base self)) 0
                      + Likelihood._log_binomial_likelihood (H := U)
                          (BinomialLikelihood.base self) phi
                          (nth i (BinomialLikelihood.mu_r self) 0)
                          (nth j (BinomialLikelihood.mu_v self) 0)))).
  { intros phi. apply binomial_cross_product. }
  clearbody n_r n_v.
  destruct (Nat.eq_dec n_r 0) as [Er | Er]; [| destruct (Nat.eq_dec n_v 0) as [Ev | Ev]].
  - left. intros phi. rewrite Hshift, Hk, cross_product_nil by (left; exact Er).
    reflexivity.
  - left. intros phi. rewrite Hshift, Hk, cross_product_nil by (right; exact Ev).
    reflexivity.
  - right. intros phi.
    rewrite Hshift, log_sum_exp_shift by (apply cross_product_nonempty; assumption).
    rewrite Hk. reflexivity.
Qed.

(** X15.  The posterior does not depend on [log_binomial_coefficient]: the
    constant it adds to every log-likelihood is removed by the
    normalisation. *)
Theorem posterior_ignores_coefficient (U : Utils) (coefficient : Z -> Z -> R)
    (data_point : DataPoint.t) (N : Z) (HN : (1 <= N)%Z) :
  get_independent_posterior (H := with_log_binomial_coefficient U coefficient)
    data_point N
  = get_independent_posterior (H := U) data_point N.
Proof.
  destruct (BinomialLikelihood.__init__ (H := U) data_point) as [self | e] eqn:Einit.
  - pose proof (binomial_init_with_coefficient U coefficient data_point) as Einit'.
    rewrite Einit in Einit'.
    rewrite (posterior_run (H := U) data_point N self Einit HN).
    rewrite (posterior_run (H := with_log_binomial_coefficient U coefficient)
               data_point N _ Einit' HN).
    f_equal. f_equal.
    set (c := coefficient (DataPoint.d data_point) (DataPoint.a data_point)).
    destruct (binomial_norm_const_shift U coefficient self c) as [Hsame | Hshift].
    + rewrite (map_ext _ _ Hsame). reflexivity.
    + rewrite (map_ext _ _ Hshift).
      set (k := c - Likelihood._log_binomial_norm_const (BinomialLikelihood.base self)).
      set (ll := map (BinomialLikelihood._log_likelihood (H := U) self)
                     (bin_centers (Z.to_nat N))).
      rewrite <- (map_map (BinomialLikelihood._log_likelihood (H := U) self)
                    (fun x => x + k)).
      fold ll.
      assert (Hne : map (fun x => x + ln (1 / IZR N)) ll <> []).
      { intros E. apply (f_equal (@length R)) in E. unfold ll in E.
        rewrite !length_map, bin_centers_length in E. simpl in E. lia. }
      assert (Enorm : log_sum_exp (map (fun x => x + ln (1 / IZR N))
                                       (map (fun x => x + k) ll))
                      = log_sum_exp (map (fun x => x + ln (1 / IZR N)) ll) + k).
      { rewrite <- (log_sum_exp_shift _ k Hne). f_equal. rewrite !map_map.
        apply map_ext. intros x. ring. }
      rewrite Enorm, map_map. apply map_ext. intros x. f_equal. ring.
  - unfold get_independent_posterior.
    rewrite binomial_init_with_coefficient, Einit. reflexivity.
Qed.

Lemma posterior_ignores_coefficient_witness :
  get_independent_posterior
    (H := with_log_binomial_coefficient textbook_utils (fun _ _ => 0))
    sample_point 4
  = get_independent_posterior (H := textbook_utils) sample_point 4.
Proof.
  exact (posterior_ignores_coefficient textbook_utils (fun _ _ => 0)
           sample_point 4 ltac:(lia)).
Defined.
